(** * Custom-Shell: a shallow embedding of [shell.cpp]

    The shell reads lines, splits each into an argument vector, and either
    interprets it as a directive ([exit], [SERIAL f], [PARALLEL f]) or runs
    it as a child process, one at a time (serial) or all at once (parallel).

    The embedding follows the source function by function:
    [checkIgnore], [split], [runSerialCommand], [runParallelCommand],
    [waitForParalellCommands], [processFirstWord], [processCmds], [main]. *)

From Stdlib Require Import String Ascii List ZArith Lia Bool Arith.
From Stdlib Require Import DecimalString DecimalPos DecimalZ.
Import ListNotations.

Local Open Scope list_scope.
Local Open Scope string_scope.

(** [using StrVec = std::vector<std::string>] and
    [using IntVec = std::vector<int>]. *)
Definition StrVec := list string.
Definition IntVec := list Z.

(** ** Characters the standard streams treat specially *)

Module Chars.

Definition newline : ascii := "010"%char.
(** The defaults of [std::quoted]: delimiter (double quote) and escape
    (backslash). *)
Definition delim : ascii := "034"%char.
Definition escape : ascii := "092"%char.
Definition hash : ascii := "#"%char.
Definition nul : ascii := "000"%char.

(** [std::isspace] in the "C" locale: codes 9 to 13, and 32. *)
Definition isspace (c : ascii) : bool :=
  let n := nat_of_ascii c in
  (((9 <=? n) && (n <=? 13)) || (n =? 32))%nat.

End Chars.
Import Chars.

(** ** Strings *)

Module Str.

Fixpoint all (p : ascii -> bool) (s : string) : bool :=
  match s with
  | EmptyString => true
  | String c s' => p c && all p s'
  end.

Definition is_empty (s : string) : bool :=
  match s with EmptyString => true | String _ _ => false end.

(** [s[0]] on a [std::string]: the terminating null when [s] is empty. *)
Definition front (s : string) : ascii :=
  match s with EmptyString => nul | String c _ => c end.

Definition endl : string := String newline EmptyString.

End Str.

(** ** The tokenizer: [split] and [std::quoted] extraction

    An [std::istringstream] over a line is modelled by the characters that
    remain to be read.  [quoted] is [is >> std::quoted(word)]: it returns
    [None] when the extraction sets [failbit] (and so ends the [while]),
    and otherwise the extracted word with the rest of the stream. *)

Module Tokenizer.

(** The whitespace skipping of a formatted extraction ([skipws] is set). *)
Fixpoint skipws (s : string) : string :=
  match s with
  | String c s' => if isspace c then skipws s' else s
  | EmptyString => EmptyString
  end.

(** [is >> word] for a [std::string], entered on a non-space character:
    characters up to the next whitespace (left in the stream) or the end. *)
Fixpoint get_word (s : string) : string * string :=
  match s with
  | String c s' =>
      if isspace c then (EmptyString, s)
      else let (w, r) := get_word s' in (String c w, r)
  | EmptyString => (EmptyString, EmptyString)
  end.

(** The body of a quoted word, after the opening delimiter, read with
    [noskipws]: an escape takes the next character as it is, a delimiter
    ends the word, and running out of characters fails the stream. *)
Fixpoint get_quoted (s : string) : option (string * string) :=
  match s with
  | EmptyString => None
  | String c s' =>
      if Ascii.eqb c escape then
        match s' with
        | EmptyString => None
        | String d s'' =>
            match get_quoted s'' with
            | Some (w, r) => Some (String d w, r)
            | None => None
            end
        end
      else if Ascii.eqb c delim then Some (EmptyString, s')
      else
        match get_quoted s' with
        | Some (w, r) => Some (String c w, r)
        | None => None
        end
  end.

Definition quoted (is_ : string) : option (string * string) :=
  match skipws is_ with
  | EmptyString => None
  | String c s' =>
      if Ascii.eqb c delim then get_quoted s'
      else Some (get_word (String c s'))
  end.

(** [while (is >> std::quoted(word)) words.push_back(word);] *)
Fixpoint split_words (fuel : nat) (is_ : string) : StrVec :=
  match fuel with
  | O => []
  | S n =>
      match quoted is_ with
      | Some (word, is') => word :: split_words n is'
      | None => []
      end
  end.

(** Every successful extraction consumes a character, so the length of the
    line (plus one) is enough fuel: see [split_words_fuel]. *)
Definition split (line : string) : StrVec :=
  split_words (S (String.length line)) line.

End Tokenizer.
Import Tokenizer.

(** ** The command-line grammar of well-formed lines

    [word := bare_token | delim quoted_chars delim], words separated by
    non-empty runs of whitespace. *)

Module Grammar.

Inductive word :=
| Bare (s : string)
| Quoted (s : string).

Definition content (w : word) : string :=
  match w with Bare s => s | Quoted s => s end.

(** What [std::quoted] writes for the body of a word: delimiters and
    escapes are escaped. *)
Fixpoint escaped (s : string) : string :=
  match s with
  | EmptyString => EmptyString
  | String c s' =>
      if Ascii.eqb c escape || Ascii.eqb c delim
      then String escape (String c (escaped s'))
      else String c (escaped s')
  end.

Definition render (w : word) : string :=
  match w with
  | Bare s => s
  | Quoted s => String delim (escaped s ++ String delim EmptyString)
  end.

(** A bare token is not empty, has no whitespace and does not open a
    quotation. *)
Definition wf_word (w : word) : bool :=
  match w with
  | Bare s =>
      negb (Str.is_empty s) && Str.all (fun c => negb (isspace c)) s
      && negb (Ascii.eqb (Str.front s) delim)
  | Quoted _ => true
  end.

Definition blank (s : string) : bool := Str.all isspace s.

(** A line is a list of words, each with the whitespace that follows it. *)
Fixpoint render_line (ws : list (word * string)) : string :=
  match ws with
  | [] => EmptyString
  | (w, sep) :: r => render w ++ sep ++ render_line r
  end.

Fixpoint wf_line (ws : list (word * string)) : bool :=
  match ws with
  | [] => true
  | (w, sep) :: r =>
      wf_word w && blank sep
      && (negb (Str.is_empty sep) || match r with [] => true | _ => false end)
      && wf_line r
  end.

(** What may follow a bare word: nothing, or whitespace. *)
Definition ends_word (rest : string) : bool :=
  match rest with
  | EmptyString => true
  | String c _ => isspace c
  end.

End Grammar.

(** ** Input streams

    A [std::istream] is the characters not yet read and the two state flags
    the program looks at.  [eofbit] is set by a read that runs into the end
    of the characters, [failbit] by a read that extracts nothing. *)

Module IStream.

Record istream := { buf : string; eofbit : bool; failbit : bool }.

Definition istringstream (s : string) : istream :=
  {| buf := s; eofbit := false; failbit := false |}.

(** [std::ifstream in(path)]: a file that cannot be opened leaves the
    stream with [failbit] set. *)
Definition ifstream (file : option string) : istream :=
  match file with
  | Some s => istringstream s
  | None => {| buf := EmptyString; eofbit := false; failbit := true |}
  end.

Definition can_open (file : option string) : bool :=
  match file with Some _ => true | None => false end.

Definition eof (is_ : istream) : bool := eofbit is_.
Definition good (is_ : istream) : bool :=
  negb (eofbit is_) && negb (failbit is_).

(** The characters before the first newline, and what follows that
    newline ([None] when the characters end first). *)
Fixpoint until_newline (s : string) : string * option string :=
  match s with
  | EmptyString => (EmptyString, None)
  | String c s' =>
      if Ascii.eqb c newline then (EmptyString, Some s')
      else let (l, r) := until_newline s' in (String c l, r)
  end.

(** [std::getline(is, line)]: the line read, if the stream is still true
    after the call, and the stream after the call. *)
Definition getline (is_ : istream) : option string * istream :=
  if good is_ then
    match buf is_ with
    | EmptyString =>
        (None, {| buf := EmptyString; eofbit := true; failbit := true |})
    | String _ _ =>
        match until_newline (buf is_) with
        | (line, Some rest) =>
            (Some line, {| buf := rest; eofbit := false; failbit := false |})
        | (line, None) =>
            (Some line,
             {| buf := EmptyString; eofbit := true; failbit := false |})
        end
    end
  else (None, {| buf := buf is_; eofbit := eofbit is_; failbit := true |}).

End IStream.
Import IStream.

(** ** What a run does: events

    A run is observed through the text it writes, the processes it launches
    and reaps, the files it opens, and the sessions it nests.  A nested
    session ([processCmds] called from [processFirstWord]) is one node
    holding its own events, in the place where the call happens. *)

Module Events.

(** [std::cout], or any other [std::ostream] a caller may pass. *)
Inductive ostream :=
| cout
| sink (n : nat).

Definition ostream_eqb (a b : ostream) : bool :=
  match a, b with
  | cout, cout => true
  | sink n, sink m => Nat.eqb n m
  | _, _ => false
  end.

#[warnings="-register-all"]
Inductive event :=
| Write (os : ostream) (text : string)
| Fork (command : StrVec) (pid : Z)
| Wait (pid : Z) (exitCode : Z)
| Open (path : string) (ok : bool)
| Nested (parMode : bool) (body : list event).

(** Every write of the event, and of the sessions nested in it, goes to
    [os]. *)
Fixpoint writes_only (os : ostream) (e : event) : bool :=
  match e with
  | Write o _ => ostream_eqb o os
  | Nested _ body => forallb (writes_only os) body
  | _ => true
  end.

(** No write of the event, nor of the sessions nested in it, goes to
    [os]. *)
Fixpoint writes_none (os : ostream) (e : event) : bool :=
  match e with
  | Write o _ => negb (ostream_eqb o os)
  | Nested _ body => forallb (writes_none os) body
  | _ => true
  end.

(** The processes launched and not yet reaped after a sequence of events
    of one session. *)
Fixpoint outstanding (acc : list Z) (tr : list event) : list Z :=
  match tr with
  | [] => acc
  | Fork _ pid :: tr' => outstanding (acc ++ [pid]) tr'
  | Wait pid _ :: tr' => outstanding (remove Z.eq_dec pid acc) tr'
  | _ :: tr' => outstanding acc tr'
  end.

Definition is_fork (e : event) : bool :=
  match e with Fork _ _ => true | _ => false end.
Definition is_wait (e : event) : bool :=
  match e with Wait _ _ => true | _ => false end.
Definition is_process_event (e : event) : bool := is_fork e || is_wait e.

End Events.
Import Events.

(** ** The environment

    [ChildProcess] is declared in [ChildProcess.h], outside [shell.cpp],
    and the file system and the kernel are outside the program: they are
    parameters.
    The clock counts the process system calls of the run, so that two calls
    on the same arguments may answer differently.  Every wait is taken to
    return, and an open to depend on the path only: a child that never
    exits, and a file that opens at one time and not at another, are
    outside this environment. *)

Record Env := {
  (** the contents of the file at a path, if it can be opened *)
  fs : string -> option string;
  (** [ChildProcess::forkNexec]: the process id handed back *)
  forkNexec : nat -> StrVec -> Z;
  (** [ChildProcess::wait]: the exit code of the child of this object *)
  cp_wait : nat -> Z -> Z;
  (** [waitpid(pid, &exitCode, 0)]: the status stored in [exitCode] *)
  waitpid : nat -> Z -> Z
}.

(** ** A state and error monad for the run *)

Module Run.

Record machine := { trace : list event; clock : nat }.

Definition start : machine := {| trace := []; clock := 0 |}.

Inductive outcome (A : Type) :=
| Ok (a : A) (m : machine)
    (** returned [a] *)
| Undefined (m : machine)
    (** reached undefined behaviour after the events of [m] *)
| TooDeep.
    (** needed more nested sessions than the depth given *)
Arguments Ok {A} a m.
Arguments Undefined {A} m.
Arguments TooDeep {A}.

Definition M (A : Type) := machine -> outcome A.

Definition ret {A} (a : A) : M A := fun m => Ok a m.

Definition bind {A B} (c : M A) (k : A -> M B) : M B :=
  fun m =>
    match c m with
    | Ok a m' => k a m'
    | Undefined m' => Undefined m'
    | TooDeep => TooDeep
    end.

Definition undefined {A} : M A := fun m => Undefined m.
Definition too_deep {A} : M A := fun _ => TooDeep.

Definition emit (e : event) : M unit :=
  fun m => Ok tt {| trace := trace m ++ [e]; clock := clock m |}.

(** One process system call: its answer depends on the clock, which it
    advances. *)
Definition syscall {A} (answer : nat -> A) (ev : A -> event) : M A :=
  fun m =>
    let a := answer (clock m) in
    Ok a {| trace := trace m ++ [ev a]; clock := S (clock m) |}.

(** Runs [c] as a session of its own: its events become one [Nested]
    node of the caller's trace. *)
Definition nested {A} (parMode : bool) (c : M A) : M A :=
  fun m =>
    let wrap m' :=
      {| trace := trace m ++ [Nested parMode (trace m')];
         clock := clock m' |} in
    match c {| trace := []; clock := clock m |} with
    | Ok a m' => Ok a (wrap m')
    | Undefined m' => Undefined (wrap m')
    | TooDeep => TooDeep
    end.

End Run.
Import Run.

Declare Scope run_scope.
Delimit Scope run_scope with run.
Notation "x <- c ;; k" := (bind c (fun x => k))
  (at level 61, c at next level, right associativity) : run_scope.
Notation "c ;; k" := (bind c (fun _ => k))
  (at level 61, right associativity) : run_scope.

(** ** The shell *)

Module Shell.

Local Open Scope run_scope.

(** [os << exitCode] for an [int]. *)
Definition show_int (z : Z) : string := NilZero.string_of_int (Z.to_int z).

(** [bool checkIgnore(StrVec& line)] *)
Definition checkIgnore (line : StrVec) : bool :=
  match line with
  | [] => true
  | w :: _ => Ascii.eqb (Str.front w) hash
  end.

(** The loop that prints a command, shared by [runSerialCommand] and
    [runParallelCommand]: a blank follows every word that differs from
    [command.back()]. *)
Fixpoint print_words (back : string) (command : StrVec) : string :=
  match command with
  | [] => EmptyString
  | word :: rest =>
      word ++ (if String.eqb word back then EmptyString else " ")
           ++ print_words back rest
  end.

Definition running (command : StrVec) : string :=
  "Running: " ++ print_words (last command EmptyString) command ++ Str.endl.

Definition exit_code (exitCode : Z) : string :=
  "Exit code: " ++ show_int exitCode ++ Str.endl.

Section WithEnv.

Variable E : Env.

(** [void runSerialCommand(std::istream& is, std::ostream& os,
    StrVec& command)] *)
Definition runSerialCommand (os : ostream) (command : StrVec) : M unit :=
  emit (Write os (running command)) ;;
  pid <- syscall (fun t => forkNexec E t command) (Fork command) ;;
  exitCode <- syscall (fun t => cp_wait E t pid) (Wait pid) ;;
  emit (Write os (exit_code exitCode)).

(** [void runParallelCommand(std::istream& is, std::ostream& os,
    StrVec& command, IntVec& parPids)]; the result is [parPids] after
    the [push_back]. *)
Definition runParallelCommand (os : ostream) (command : StrVec)
    (parPids : IntVec) : M IntVec :=
  emit (Write os (running command)) ;;
  pid <- syscall (fun t => forkNexec E t command) (Fork command) ;;
  ret (parPids ++ [pid])%list.

(** [void waitForParalellCommands(std::ostream& os, IntVec& parPids)] *)
Fixpoint waitForParalellCommands (os : ostream) (parPids : IntVec)
    : M unit :=
  match parPids with
  | [] => ret tt
  | pid :: rest =>
      exitCode <- syscall (fun t => waitpid E t pid) (Wait pid) ;;
      emit (Write os (exit_code exitCode)) ;;
      waitForParalellCommands os rest
  end.

Section Session.

(** [processCmds] as [processFirstWord] calls it: one nesting level
    further down. *)
Variable processCmds_rec : istream -> ostream -> bool -> string -> M istream.

(** The two directive branches of [processFirstWord]:
    [std::ifstream in(line[1])], then [processCmds] over [in] with
    [std::cout], the mode of the directive and the empty prompt.
    [line[1]] on a vector of one word reads past its end. *)
Definition run_file (line : StrVec) (parMode : bool) : M bool :=
  match nth_error line 1 with
  | None => undefined
  | Some path =>
      emit (Open path (can_open (fs E path))) ;;
      nested parMode
        (processCmds_rec (ifstream (fs E path)) cout parMode EmptyString) ;;
      ret false
  end.

(** [bool processFirstWord(StrVec& line)] *)
Definition processFirstWord (line : StrVec) : M bool :=
  match line with
  | [] => undefined
  | w :: _ =>
      if String.eqb w "exit" then ret false
      else if String.eqb w "SERIAL" then run_file line false
      else if String.eqb w "PARALLEL" then run_file line true
      else ret true
  end.

(** The [while] loop of [processCmds]; it returns the stream and
    [parPids] as the loop leaves them. *)
Fixpoint while_loop (fuel : nat) (os : ostream) (parMode : bool)
    (prompt : string) (is_ : istream) (parPids : IntVec)
    : M (istream * IntVec) :=
  match fuel with
  | O => too_deep (* not reached from [session] *)
  | S fuel' =>
      emit (Write os prompt) ;;
      match getline is_ with
      | (None, is') => ret (is', parPids)
      | (Some line, is') =>
          let splitLine := split line in
          if checkIgnore splitLine then
            while_loop fuel' os parMode prompt is' parPids
          else
            go_on <- processFirstWord splitLine ;;
            if negb go_on || eof is' then ret (is', parPids)
            else if negb parMode then
              runSerialCommand os splitLine ;;
              while_loop fuel' os parMode prompt is' parPids
            else
              parPids' <- runParallelCommand os splitLine parPids ;;
              while_loop fuel' os parMode prompt is' parPids'
      end
  end.

(** The loop as [processCmds] enters it.  Every turn that goes on has
    read at least one character, so the length of the input (plus one)
    is enough fuel: see [while_loop_fuel]. *)
Definition loop (os : ostream) (parMode : bool) (prompt : string)
    (is_ : istream) (parPids : IntVec) : M (istream * IntVec) :=
  while_loop (S (String.length (buf is_))) os parMode prompt is_ parPids.

(** The body of [processCmds]: the loop, then the wait for the children
    of a parallel session. *)
Definition session (is_ : istream) (os : ostream) (parMode : bool)
    (prompt : string) : M istream :=
  r <- loop os parMode prompt is_ [] ;;
  (if parMode then waitForParalellCommands cout (snd r) else ret tt) ;;
  ret (fst r).

End Session.

(** [void processCmds(std::istream& is, std::ostream& os, bool parMode,
    const std::string prompt)]; the result is the stream as the call
    leaves it.  [depth] bounds how many sessions may be nested in one
    another (a file may name itself). *)
Fixpoint processCmds (depth : nat) (is_ : istream) (os : ostream)
    (parMode : bool) (prompt : string) : M istream :=
  match depth with
  | O => too_deep
  | S d => session (processCmds d) is_ os parMode prompt
  end.

(** [int main()] over the characters of standard input. *)
Definition main (depth : nat) (stdin : string) : outcome istream :=
  processCmds depth (istringstream stdin) cout false "> " start.

End WithEnv.

End Shell.
Import Shell.

(** ** Lines of input and what a session is expected to do

    The vocabulary of the statements below: what a command line and a
    directive line are, the text of a sequence of lines, and the events a
    sequence of commands gives rise to. *)

Module Lines.

Definition no_newline (s : string) : bool :=
  Str.all (fun c => negb (Ascii.eqb c newline)) s.

(** The line classifier, read off [checkIgnore] and [processFirstWord]. *)
Definition is_command (line : StrVec) : bool :=
  match line with
  | [] => false
  | w :: _ =>
      negb (Ascii.eqb (Str.front w) hash)
      && negb (String.eqb w "exit")
      && negb (String.eqb w "SERIAL")
      && negb (String.eqb w "PARALLEL")
  end.

Definition is_exit (line : StrVec) : bool :=
  match line with
  | w :: _ => String.eqb w "exit"
  | [] => false
  end.

(** A [SERIAL] or [PARALLEL] directive with its path: the mode and the
    path it names. *)
Definition directive (line : StrVec) : option (bool * string) :=
  match line with
  | w :: path :: _ =>
      if String.eqb w "SERIAL" then Some (false, path)
      else if String.eqb w "PARALLEL" then Some (true, path)
      else None
  | _ => None
  end.

(** A directive with its path missing. *)
Definition is_bare_directive (line : StrVec) : bool :=
  match line with
  | [w] => String.eqb w "SERIAL" || String.eqb w "PARALLEL"
  | _ => false
  end.

Definition command_line (l : string) : bool :=
  no_newline l && is_command (split l).

Definition exit_line (l : string) : bool :=
  no_newline l && is_exit (split l).

(** Lines, each ended by a newline. *)
Fixpoint text (ls : list string) : string :=
  match ls with
  | [] => EmptyString
  | l :: r => l ++ Str.endl ++ text r
  end.

End Lines.
Import Lines.

Module Expected.

Section WithEnv.

Variable E : Env.

(** The answers of the kernel to a serial session that runs [cmds] from
    clock [t]: the process id and the exit code of each command. *)
Fixpoint serial_answers (t : nat) (cmds : list StrVec) : list (Z * Z) :=
  match cmds with
  | [] => []
  | c :: r =>
      let pid := forkNexec E t c in
      (pid, cp_wait E (S t) pid) :: serial_answers (S (S t)) r
  end.

(** The process ids a parallel session gets for [cmds] from clock [t]. *)
Fixpoint launch_pids (t : nat) (cmds : list StrVec) : list Z :=
  match cmds with
  | [] => []
  | c :: r => forkNexec E t c :: launch_pids (S t) r
  end.

(** The statuses [waitpid] stores for [pids], asked in this order from
    clock [t]. *)
Fixpoint reap_codes (t : nat) (pids : list Z) : list Z :=
  match pids with
  | [] => []
  | p :: r => waitpid E t p :: reap_codes (S t) r
  end.

End WithEnv.

(** One command of a serial session: prompt, report, launch, wait,
    report. *)
Definition serial_step (os : ostream) (prompt : string)
    (ca : StrVec * (Z * Z)) : list event :=
  let '(c, (pid, code)) := ca in
  [Write os prompt; Write os (running c); Fork c pid; Wait pid code;
   Write os (exit_code code)].

Definition serial_events (os : ostream) (prompt : string)
    (cmds : list StrVec) (answers : list (Z * Z)) : list event :=
  flat_map (serial_step os prompt) (combine cmds answers).

(** One command of a parallel session: prompt, report, launch. *)
Definition launch_step (os : ostream) (prompt : string)
    (cp : StrVec * Z) : list event :=
  [Write os prompt; Write os (running (fst cp)); Fork (fst cp) (snd cp)].

Definition launches (os : ostream) (prompt : string)
    (cmds : list StrVec) (pids : list Z) : list event :=
  flat_map (launch_step os prompt) (combine cmds pids).

(** The wait for one child: the wait, and the report on [std::cout]. *)
Definition reap_step (pc : Z * Z) : list event :=
  [Wait (fst pc) (snd pc); Write cout (exit_code (snd pc))].

Definition reaps (pids codes : list Z) : list event :=
  flat_map reap_step (combine pids codes).

(** The launches and waits of a serial session, without the text. *)
Definition spawn_await (ca : StrVec * (Z * Z)) : list event :=
  let '(c, (pid, code)) := ca in [Fork c pid; Wait pid code].

(** An event of a session's own loop, with sink [os]: the prompt, a
    [Running] line, or (serial mode) an [Exit code] line, written to
    [os]; a launch or a wait; the opening of a file; or a nested session,
    all of whose writes go to [std::cout]. *)
Definition own_event (os : ostream) (parMode : bool) (prompt : string)
    (e : event) : Prop :=
  match e with
  | Write o t =>
      o = os
      /\ (t = prompt \/ (exists c, t = running c)
          \/ (parMode = false /\ exists n, t = exit_code n))
  | Nested _ _ => writes_only cout e = true
  | _ => True
  end.

(** An event of the wait for the children of a parallel session: a wait,
    or an [Exit code] line on [std::cout]. *)
Definition drain_event (e : event) : Prop :=
  match e with
  | Wait _ _ => True
  | Write o t => o = cout /\ exists n, t = exit_code n
  | _ => False
  end.

(** The machine a run ends in, when it ends. *)
Definition machine_of {A} (r : outcome A) : option machine :=
  match r with
  | Ok _ m => Some m
  | Undefined m => Some m
  | TooDeep => None
  end.

(** Two runs that did and answered the same, up to the stream they
    leave. *)
Definition same_run {A} (r1 r2 : outcome A) : Prop :=
  match r1, r2 with
  | Ok _ m1, Ok _ m2 => m1 = m2
  | Undefined m1, Undefined m2 => m1 = m2
  | TooDeep, TooDeep => True
  | _, _ => False
  end.

(** A computation only adds events to the trace, each of them with the
    property [P]. *)
Definition extends {A} (P : event -> Prop) (c : M A) : Prop :=
  forall m,
    match machine_of (c m) with
    | Some m' => exists ext, trace m' = (trace m ++ ext)%list /\ Forall P ext
    | None => True
    end.

(** Every write of an event goes to [std::cout]. *)
Definition to_cout (e : event) : Prop := writes_only cout e = true.

(** No write of a nested session goes to [os]. *)
Definition nested_away (os : ostream) (e : event) : Prop :=
  match e with
  | Nested _ _ => writes_none os e = true
  | _ => True
  end.

(** The same for the loop, which also hands back [parPids]. *)
Definition same_loop (r1 r2 : outcome (istream * IntVec)) : Prop :=
  match r1, r2 with
  | Ok (_, p1) m1, Ok (_, p2) m2 => p1 = p2 /\ m1 = m2
  | Undefined m1, Undefined m2 => m1 = m2
  | TooDeep, TooDeep => True
  | _, _ => False
  end.

End Expected.
Import Expected.

(** ** More vocabulary: lines, words and the children of a trace *)

Module Accounting.

Import Grammar.

(** A line the loop skips: blank, or with a first word that starts with
    a hash. *)
Definition ignored_line (l : string) : bool :=
  no_newline l && checkIgnore (split l).

(** The first word is one of the two words that name a file to run. *)
Definition is_directive_word (line : StrVec) : bool :=
  match line with
  | w :: _ => String.eqb w "SERIAL" || String.eqb w "PARALLEL"
  | [] => false
  end.

(** A line that names no file to run. *)
Definition plain_line (l : string) : bool :=
  no_newline l && negb (is_directive_word (split l)).

(** Well-formed words, each followed by whitespace that is not empty. *)
Definition strict_line (ws : list (word * string)) : bool :=
  forallb
    (fun p => wf_word (fst p) && blank (snd p)
              && negb (Str.is_empty (snd p)))
    ws.

Definition words_of (ws : list (word * string)) : StrVec :=
  map (fun p => content (fst p)) ws.

Definition no_delim (s : string) : bool :=
  Str.all (fun c => negb (Ascii.eqb c delim)) s.

Definition no_space (s : string) : bool :=
  Str.all (fun c => negb (isspace c)) s.

(** The process ids a session launches itself, in order; those of the
    sessions nested in it are not counted. *)
Definition forked (tr : list event) : list Z :=
  flat_map (fun e => match e with Fork _ pid => [pid] | _ => [] end) tr.

(** The process ids a session waits for itself, in order. *)
Definition waited (tr : list event) : list Z :=
  flat_map (fun e => match e with Wait pid _ => [pid] | _ => [] end) tr.

Definition pids_eqb (a b : list Z) : bool :=
  if list_eq_dec Z.eq_dec a b then true else false.

(** Every session nested in the event, at any depth, has waited for
    exactly the children it has launched, in the order of the launches. *)
Fixpoint balanced (e : event) : bool :=
  match e with
  | Nested _ body => pids_eqb (forked body) (waited body)
                     && forallb balanced body
  | _ => true
  end.

(** The characters of the words of a command, and its words other than
    [back]. *)
Fixpoint total_length (ws : StrVec) : nat :=
  match ws with
  | [] => 0
  | w :: r => String.length w + total_length r
  end.

Definition others (back : string) (ws : StrVec) : StrVec :=
  filter (fun w => negb (String.eqb w back)) ws.

(** A session's own events are settled when it has waited for exactly
    the children it has launched, in launch order, and the sessions nested
    in it have done so too. *)
Definition settled (body : list event) : bool :=
  pids_eqb (forked body) (waited body) && forallb balanced body.

(** What the events [ext] of some turns of the loop do to [parPids]: a
    parallel session waits for nothing and appends the children it
    launches; a serial one waits for each child it launches and leaves
    [parPids] alone. *)
Definition accounts (parMode : bool) (before after : IntVec)
    (ext : list event) : Prop :=
  forallb balanced ext = true
  /\ if parMode
     then waited ext = [] /\ after = (before ++ forked ext)%list
     else forked ext = waited ext /\ after = before.

(** The launches and waits of a session's own events come in pairs: a
    launch, then (before any other launch) the wait for the child just
    launched; [pending] is the child launched and not yet waited for. *)
Fixpoint alternates (pending : option Z) (tr : list event) : bool :=
  match tr with
  | [] => match pending with None => true | Some _ => false end
  | Fork _ pid :: r =>
      match pending with
      | None => alternates (Some pid) r
      | Some _ => false
      end
  | Wait pid _ :: r =>
      match pending with
      | Some child => Z.eqb pid child && alternates None r
      | None => false
      end
  | _ :: r => alternates pending r
  end.

(** The event opens a file or is a nested session. *)
Definition nests (e : event) : bool :=
  match e with
  | Open _ _ => true
  | Nested _ _ => true
  | _ => false
  end.

(** The run has returned, and the events it added to those of [m]
    open no file and nest no session. *)
Definition returns_unnested {A} (o : outcome A) (m : machine) : Prop :=
  exists a m',
    o = Ok a m'
    /\ exists ext, trace m' = (trace m ++ ext)%list
                   /\ existsb nests ext = false.

End Accounting.
Import Accounting.

(** ** A small world to run the shell in

    Launches answer with process ids 100, 101, ... in the order of the
    system calls; [waitpid] answers with a status that tells the processes
    apart; [batch.txt] holds two commands and [loop.txt] names itself. *)

Module Demo.

Definition ln (s : string) : string := s ++ Str.endl.

Definition files (path : string) : option string :=
  if String.eqb path "batch.txt" then Some (ln "sleep 2" ++ ln "sleep 1")
  else if String.eqb path "loop.txt" then Some (ln "SERIAL loop.txt")
  else None.

Definition env : Env :=
  {| fs := files;
     forkNexec := fun t _ => 100 + Z.of_nat t;
     cp_wait := fun _ _ => 0;
     waitpid := fun _ pid => (pid - 100) * 256 |}%Z.

End Demo.

(** * Properties *)

(** ** Strings *)

Module StrFacts.

Lemma append_nil_r (s : string) : s ++ EmptyString = s.
Proof. induction s as [|c s IH]; simpl; [reflexivity | now rewrite IH]. Qed.

Lemma append_assoc (a b c : string) : (a ++ b) ++ c = a ++ (b ++ c).
Proof. induction a as [|x a IH]; simpl; [reflexivity | now rewrite IH]. Qed.

Lemma length_append (a b : string) :
  String.length (a ++ b) = String.length a + String.length b.
Proof. induction a as [|x a IH]; simpl; [reflexivity | now rewrite IH]. Qed.

End StrFacts.

(** ** The tokenizer *)

Module TokenizerFacts.

Import Grammar.

Lemma skipws_length (s : string) :
  String.length (skipws s) <= String.length s.
Proof.
  induction s as [|c s IH]; simpl; [lia|].
  destruct (isspace c); simpl; lia.
Qed.

Lemma get_word_length (s : string) :
  String.length (snd (get_word s)) <= String.length s.
Proof.
  induction s as [|c s IH]; simpl; [lia|].
  destruct (isspace c); simpl; [lia|].
  destruct (get_word s) as [w r]; simpl in *; lia.
Qed.

(** A quoted word takes at least its closing delimiter from the stream.
    The induction is on the length, because an escape takes two
    characters at a time. *)
Lemma get_quoted_length (n : nat) :
  forall s w r, String.length s <= n ->
    get_quoted s = Some (w, r) -> String.length r < String.length s.
Proof.
  induction n as [|n IH]; intros s w r Hn H.
  - destruct s; simpl in *; [discriminate | lia].
  - destruct s as [|c s]; simpl in *; [discriminate|].
    destruct (Ascii.eqb c escape).
    + destruct s as [|d s]; [discriminate|].
      destruct (get_quoted s) as [[w' r']|] eqn:Hq; [|discriminate].
      injection H as _ ->.
      apply IH in Hq; simpl in *; lia.
    + destruct (Ascii.eqb c delim).
      * injection H as _ ->. lia.
      * destruct (get_quoted s) as [[w' r']|] eqn:Hq; [|discriminate].
        injection H as _ ->.
        apply IH in Hq; simpl in *; lia.
Qed.

Lemma quoted_length (s w r : string) :
  quoted s = Some (w, r) -> String.length r < String.length s.
Proof.
  unfold quoted. intros H.
  pose proof (skipws_length s) as Hs.
  destruct (skipws s) as [|c s'] eqn:Hk; [discriminate|].
  destruct (Ascii.eqb c delim).
  - apply (get_quoted_length (String.length s')) in H; simpl in *; lia.
  - injection H as H.
    pose proof (get_word_length s') as Hw.
    simpl in H. destruct (isspace c) eqn:Hc.
    + exfalso. clear - Hk Hc.
      induction s as [|x s IH]; simpl in Hk; [discriminate|].
      destruct (isspace x) eqn:Hx; [auto|].
      injection Hk as -> _. congruence.
    + destruct (get_word s') as [w' r']. injection H as _ ->.
      simpl in *; lia.
Qed.

(** Fuel above the length of the stream never runs out. *)
Lemma split_words_fuel (n : nat) :
  forall m s, String.length s < n -> String.length s < m ->
    split_words n s = split_words m s.
Proof.
  induction n as [|n IH]; intros m s Hn Hm; [lia|].
  destruct m as [|m]; [lia|]. simpl.
  destruct (quoted s) as [[w r]|] eqn:Hq; [|reflexivity].
  apply quoted_length in Hq. f_equal. apply IH; lia.
Qed.

(** The loop of [split], one turn at a time. *)
Lemma split_unfold (s : string) :
  split s =
  match quoted s with
  | Some (w, r) => w :: split r
  | None => []
  end.
Proof.
  unfold split at 1. simpl.
  destruct (quoted s) as [[w r]|] eqn:Hq; [|reflexivity].
  apply quoted_length in Hq. f_equal. apply split_words_fuel; lia.
Qed.

Lemma skipws_blank (lead s : string) :
  blank lead = true -> skipws (lead ++ s) = skipws s.
Proof.
  induction lead as [|c lead IH]; simpl; [reflexivity|].
  intros H. apply andb_true_iff in H as [Hc Hl].
  rewrite Hc. auto.
Qed.

Lemma get_word_bare (s rest : string) :
  Str.all (fun c => negb (isspace c)) s = true ->
  ends_word rest = true ->
  get_word (s ++ rest) = (s, rest).
Proof.
  intros Hs Hr. induction s as [|c s IH]; simpl in *.
  - destruct rest as [|x rest]; [reflexivity|].
    simpl in Hr. simpl. now rewrite Hr.
  - apply andb_true_iff in Hs as [Hc Hs].
    apply negb_true_iff in Hc. rewrite Hc, (IH Hs). reflexivity.
Qed.

Lemma get_quoted_escaped (s rest : string) :
  get_quoted (escaped s ++ String delim rest) = Some (s, rest).
Proof.
  induction s as [|c s IH]; simpl.
  - reflexivity.
  - destruct (Ascii.eqb c escape) eqn:He; simpl.
    + rewrite IH. reflexivity.
    + destruct (Ascii.eqb c delim) eqn:Hd; simpl.
      * rewrite IH. reflexivity.
      * rewrite He, Hd, IH. reflexivity.
Qed.

(** One extraction takes one well-formed word off the line. *)
Lemma quoted_word (lead : string) (w : word) (rest : string) :
  blank lead = true -> wf_word w = true -> ends_word rest = true ->
  quoted (lead ++ render w ++ rest) = Some (content w, rest).
Proof.
  intros Hl Hw Hr. unfold quoted. rewrite skipws_blank by assumption.
  destruct w as [s|s]; simpl in *.
  - apply andb_true_iff in Hw as [Hw Hd].
    apply andb_true_iff in Hw as [He Hs].
    destruct s as [|c s]; [discriminate|]. simpl in *.
    apply andb_true_iff in Hs as [Hc Hs].
    apply negb_true_iff in Hc, Hd. rewrite Hc, Hd. simpl.
    rewrite Hc, get_word_bare by assumption. reflexivity.
  - rewrite StrFacts.append_assoc. simpl.
    apply get_quoted_escaped.
Qed.

Lemma split_blank (s : string) : blank s = true -> split s = [].
Proof.
  intros H. rewrite split_unfold. unfold quoted.
  rewrite <- (StrFacts.append_nil_r s), skipws_blank by assumption.
  reflexivity.
Qed.

Lemma ends_word_sep (sep : string) (r : list (word * string)) :
  blank sep = true ->
  negb (Str.is_empty sep) || match r with [] => true | _ => false end = true ->
  ends_word (sep ++ render_line r) = true.
Proof.
  intros Hb Hn. destruct sep as [|c sep]; simpl in *.
  - destruct r; [reflexivity | discriminate].
  - now apply andb_true_iff in Hb as [Hc _].
Qed.

Lemma split_line (ws : list (word * string)) :
  forall lead, blank lead = true -> wf_line ws = true ->
    split (lead ++ render_line ws) = map (fun p => content (fst p)) ws.
Proof.
  induction ws as [|[w sep] r IH]; intros lead Hl Hw; simpl.
  - rewrite StrFacts.append_nil_r. now apply split_blank.
  - simpl in Hw.
    apply andb_true_iff in Hw as [Hw Hr].
    apply andb_true_iff in Hw as [Hw Hn].
    apply andb_true_iff in Hw as [Hw Hb].
    rewrite split_unfold, quoted_word; auto using ends_word_sep.
    f_equal. now apply IH.
Qed.

(** C7. For a well-formed command line (words, bare or quoted, each
    followed by a run of whitespace that may be empty only after the last
    one, after any leading whitespace) [split] returns the words with the
    quoting removed, so joining its result with single blanks gives the
    words of the line joined with single blanks; and a line of whitespace
    only, or an empty one, gives the empty vector. *)
Theorem split_roundtrip (lead : string) (ws : list (word * string)) :
  blank lead = true -> wf_line ws = true ->
  let line := lead ++ render_line ws in
  let words := map (fun p => content (fst p)) ws in
  split line = words
  /\ String.concat " " (split line) = String.concat " " words
  /\ (ws = [] -> split line = []).
Proof.
  intros Hl Hw line words.
  assert (H : split line = words) by now apply split_line.
  repeat split.
  - exact H.
  - now rewrite H.
  - intros ->. exact H.
Qed.

End TokenizerFacts.

(** ** Input streams *)

Module IStreamFacts.

Lemma until_newline_line (l rest : string) :
  no_newline l = true ->
  until_newline (l ++ String newline rest) = (l, Some rest).
Proof.
  induction l as [|c l IH]; simpl; intros H.
  - reflexivity.
  - apply andb_true_iff in H as [Hc Hl].
    apply negb_true_iff in Hc. rewrite Hc, (IH Hl). reflexivity.
Qed.

Lemma until_newline_last (l : string) :
  no_newline l = true -> until_newline l = (l, None).
Proof.
  induction l as [|c l IH]; simpl; intros H.
  - reflexivity.
  - apply andb_true_iff in H as [Hc Hl].
    apply negb_true_iff in Hc. rewrite Hc, (IH Hl). reflexivity.
Qed.

Lemma until_newline_length (s l rest : string) :
  until_newline s = (l, Some rest) -> String.length rest < String.length s.
Proof.
  revert l. induction s as [|c s IH]; simpl; intros l H.
  - discriminate.
  - destruct (Ascii.eqb c newline).
    + injection H as _ <-. lia.
    + destruct (until_newline s) as [l' r'].
      injection H as _ ->. specialize (IH _ eq_refl). lia.
Qed.

(** A line that ends in a newline is read whole, and the stream stays
    good. *)
Lemma getline_line (l rest : string) :
  no_newline l = true ->
  getline (istringstream (l ++ Str.endl ++ rest))
  = (Some l, istringstream rest).
Proof.
  intros H. unfold getline, istringstream, good. simpl.
  change (l ++ Str.endl ++ rest) with (l ++ String newline rest).
  rewrite until_newline_line by assumption.
  destruct l; reflexivity.
Qed.

(** A last line without its newline is read, and [eofbit] is set. *)
Lemma getline_last (l : string) :
  no_newline l = true -> l <> EmptyString ->
  getline (istringstream l)
  = (Some l, {| buf := EmptyString; eofbit := true; failbit := false |}).
Proof.
  intros H Hne. unfold getline, istringstream, good. simpl.
  rewrite until_newline_last by assumption.
  destruct l; [contradiction | reflexivity].
Qed.

Lemma getline_end :
  getline (istringstream EmptyString)
  = (None, {| buf := EmptyString; eofbit := true; failbit := true |}).
Proof. reflexivity. Qed.

(** A call that gives a line has taken characters off the stream. *)
Lemma getline_length (is_ is' : istream) (line : string) :
  getline is_ = (Some line, is') ->
  String.length (buf is') < String.length (buf is_).
Proof.
  unfold getline. destruct (good is_); [|discriminate].
  destruct (buf is_) as [|c s] eqn:Hb; [discriminate|].
  destruct (until_newline (String c s)) as [l [r|]] eqn:Hu; intros H;
    injection H as _ <-; simpl.
  - apply until_newline_length in Hu. exact Hu.
  - lia.
Qed.

End IStreamFacts.

(** ** The monad *)

Module RunFacts.

Lemma bind_ext {A B} (c : M A) (k k' : A -> M B) (m : machine) :
  (forall a m', k a m' = k' a m') -> bind c k m = bind c k' m.
Proof. intros H. unfold bind. destruct (c m); auto. Qed.

Lemma bind_ret {A B} (a : A) (k : A -> M B) (m : machine) :
  bind (ret a) k m = k a m.
Proof. reflexivity. Qed.

Lemma bind_emit {B} (e : event) (k : unit -> M B) (m : machine) :
  bind (emit e) k m
  = k tt {| trace := (trace m ++ [e])%list; clock := clock m |}.
Proof. reflexivity. Qed.

Lemma bind_syscall {A B} (answer : nat -> A) (ev : A -> event)
    (k : A -> M B) (m : machine) :
  bind (syscall answer ev) k m
  = k (answer (clock m))
      {| trace := (trace m ++ [ev (answer (clock m))])%list;
         clock := S (clock m) |}.
Proof. reflexivity. Qed.

Lemma bind_assoc {A B C} (c : M A) (k : A -> M B) (h : B -> M C)
    (m : machine) :
  bind (bind c k) h m = bind c (fun a => bind (k a) h) m.
Proof. unfold bind. destruct (c m); reflexivity. Qed.

End RunFacts.

(** ** The session loop *)

Module LoopFacts.

Import RunFacts.

Import IStreamFacts.

Section WithEnv.

Variable E : Env.
Variable rec : istream -> ostream -> bool -> string -> M istream.

(** Fuel above the length of the input never runs out. *)
Lemma while_loop_fuel (n : nat) :
  forall k os parMode prompt is_ parPids m,
    String.length (buf is_) < n -> String.length (buf is_) < k ->
    while_loop E rec n os parMode prompt is_ parPids m
    = while_loop E rec k os parMode prompt is_ parPids m.
Proof.
  induction n as [|n IH]; intros k os parMode prompt is_ parPids m Hn Hk;
    [lia|].
  destruct k as [|k]; [lia|]. cbn [while_loop].
  apply bind_ext; intros _ m1.
  destruct (getline is_) as [[line|] is'] eqn:Hg; [|reflexivity].
  apply getline_length in Hg. cbv zeta.
  destruct (checkIgnore (split line)).
  - apply IH; lia.
  - apply bind_ext; intros go_on m2.
    destruct (negb go_on || eof is'); [reflexivity|].
    destruct (negb parMode); apply bind_ext; intros; apply IH; lia.
Qed.

(** The loop, one turn at a time. *)
Lemma loop_unfold os parMode prompt is_ parPids m :
  loop E rec os parMode prompt is_ parPids m =
  (emit (Write os prompt) ;;
   match getline is_ with
   | (None, is') => ret (is', parPids)
   | (Some line, is') =>
       let splitLine := split line in
       if checkIgnore splitLine then loop E rec os parMode prompt is' parPids
       else
         go_on <- processFirstWord E rec splitLine ;;
         if negb go_on || eof is' then ret (is', parPids)
         else if negb parMode then
           runSerialCommand E os splitLine ;;
           loop E rec os parMode prompt is' parPids
         else
           parPids' <- runParallelCommand E os splitLine parPids ;;
           loop E rec os parMode prompt is' parPids'
   end)%run m.
Proof.
  unfold loop at 1. cbn [while_loop].
  apply bind_ext; intros _ m1.
  destruct (getline is_) as [[line|] is'] eqn:Hg; [|reflexivity].
  apply getline_length in Hg. cbv zeta.
  destruct (checkIgnore (split line)).
  - apply while_loop_fuel; lia.
  - apply bind_ext; intros go_on m2.
    destruct (negb go_on || eof is'); [reflexivity|].
    destruct (negb parMode); apply bind_ext; intros;
      apply while_loop_fuel; lia.
Qed.

(** *** What each kind of line does *)

Lemma is_command_not_ignored (line : StrVec) :
  is_command line = true -> checkIgnore line = false.
Proof.
  destruct line as [|w line]; simpl; [discriminate|].
  intros H. repeat (apply andb_true_iff in H as [H _]).
  now apply negb_true_iff in H.
Qed.

Lemma processFirstWord_command (line : StrVec) (m : machine) :
  is_command line = true -> processFirstWord E rec line m = Ok true m.
Proof.
  destruct line as [|w line]; simpl; [discriminate|].
  intros H.
  apply andb_true_iff in H as [H Hp].
  apply andb_true_iff in H as [H Hs].
  apply andb_true_iff in H as [_ He].
  apply negb_true_iff in Hp, Hs, He. now rewrite He, Hs, Hp.
Qed.

Lemma is_exit_not_ignored (line : StrVec) :
  is_exit line = true -> checkIgnore line = false.
Proof.
  destruct line as [|w line]; simpl; [discriminate|].
  intros H. apply String.eqb_eq in H. now subst w.
Qed.

Lemma processFirstWord_exit (line : StrVec) (m : machine) :
  is_exit line = true -> processFirstWord E rec line m = Ok false m.
Proof.
  destruct line as [|w line]; simpl; [discriminate|].
  intros H. now rewrite H.
Qed.

Lemma directive_not_ignored (line : StrVec) parMode path :
  directive line = Some (parMode, path) -> checkIgnore line = false.
Proof.
  destruct line as [|w [|p line]]; simpl; try discriminate.
  destruct (String.eqb_spec w "SERIAL") as [->|_]; [reflexivity|].
  destruct (String.eqb_spec w "PARALLEL") as [->|_];
    [reflexivity | discriminate].
Qed.

Lemma processFirstWord_directive (line : StrVec) parMode path (m : machine) :
  directive line = Some (parMode, path) ->
  processFirstWord E rec line m
  = (emit (Open path (can_open (fs E path))) ;;
     nested parMode
       (rec (ifstream (fs E path)) cout parMode EmptyString) ;;
     ret false)%run m.
Proof.
  destruct line as [|w [|p line]]; simpl; try discriminate.
  destruct (String.eqb_spec w "SERIAL") as [->|Hs].
  - intros H. injection H as <- <-. reflexivity.
  - destruct (String.eqb_spec w "PARALLEL") as [->|Hp]; [|discriminate].
    intros H. injection H as <- <-. reflexivity.
Qed.

Lemma bare_directive_not_ignored (line : StrVec) :
  is_bare_directive line = true -> checkIgnore line = false.
Proof.
  destruct line as [|w [|p line]]; simpl; try discriminate.
  intros H. apply orb_true_iff in H as [H|H];
    apply String.eqb_eq in H; now subst w.
Qed.

Lemma processFirstWord_bare_directive (line : StrVec) (m : machine) :
  is_bare_directive line = true ->
  processFirstWord E rec line m = Undefined m.
Proof.
  destruct line as [|w [|p line]]; simpl; try discriminate.
  intros H. apply orb_true_iff in H as [H|H];
    apply String.eqb_eq in H; now subst w.
Qed.

(** *** One turn of the loop on each kind of line *)

Lemma loop_end os parMode prompt parPids m :
  loop E rec os parMode prompt (istringstream EmptyString) parPids m
  = Ok ({| buf := EmptyString; eofbit := true; failbit := true |}, parPids)
       {| trace := trace m ++ [Write os prompt]; clock := clock m |}.
Proof. reflexivity. Qed.

Lemma loop_command_serial os prompt l rest parPids m :
  command_line l = true ->
  let c := split l in
  let pid := forkNexec E (clock m) c in
  let code := cp_wait E (S (clock m)) pid in
  loop E rec os false prompt (istringstream (l ++ Str.endl ++ rest)) parPids m
  = loop E rec os false prompt (istringstream rest) parPids
      {| trace := trace m ++ serial_step os prompt (c, (pid, code));
         clock := S (S (clock m)) |}.
Proof.
  intros H c pid code. apply andb_true_iff in H as [Hn Hc].
  rewrite loop_unfold, bind_emit, getline_line by assumption. cbv zeta.
  rewrite is_command_not_ignored by assumption.
  unfold bind at 1. rewrite processFirstWord_command by assumption.
  cbn -[loop split running exit_code]. rewrite <- !app_assoc. reflexivity.
Qed.

Lemma loop_command_parallel os prompt l rest parPids m :
  command_line l = true ->
  let c := split l in
  let pid := forkNexec E (clock m) c in
  loop E rec os true prompt (istringstream (l ++ Str.endl ++ rest)) parPids m
  = loop E rec os true prompt (istringstream rest) (parPids ++ [pid])%list
      {| trace := trace m ++ launch_step os prompt (c, pid);
         clock := S (clock m) |}.
Proof.
  intros H c pid. apply andb_true_iff in H as [Hn Hc].
  rewrite loop_unfold, bind_emit, getline_line by assumption. cbv zeta.
  rewrite is_command_not_ignored by assumption.
  unfold bind at 1. rewrite processFirstWord_command by assumption.
  cbn -[loop split running exit_code]. rewrite <- !app_assoc. reflexivity.
Qed.

(** A command on a last line that has no newline: [eofbit] is set by the
    read, and the loop is left before the command is run. *)
Lemma loop_command_last os parMode prompt l parPids m :
  command_line l = true ->
  loop E rec os parMode prompt (istringstream l) parPids m
  = Ok ({| buf := EmptyString; eofbit := true; failbit := false |}, parPids)
       {| trace := trace m ++ [Write os prompt]; clock := clock m |}.
Proof.
  intros H. apply andb_true_iff in H as [Hn Hc].
  assert (Hne : l <> EmptyString) by (intros ->; discriminate).
  rewrite loop_unfold, bind_emit, getline_last by assumption. cbv zeta.
  rewrite is_command_not_ignored by assumption.
  unfold bind at 1. rewrite processFirstWord_command by assumption.
  reflexivity.
Qed.

Lemma loop_exit os parMode prompt l rest parPids m :
  exit_line l = true ->
  loop E rec os parMode prompt (istringstream (l ++ Str.endl ++ rest))
    parPids m
  = Ok (istringstream rest, parPids)
       {| trace := trace m ++ [Write os prompt]; clock := clock m |}.
Proof.
  intros H. apply andb_true_iff in H as [Hn Hc].
  rewrite loop_unfold, bind_emit, getline_line by assumption. cbv zeta.
  rewrite is_exit_not_ignored by assumption.
  unfold bind at 1. rewrite processFirstWord_exit by assumption.
  reflexivity.
Qed.

Lemma loop_bare_directive os parMode prompt l rest parPids m :
  no_newline l = true -> is_bare_directive (split l) = true ->
  loop E rec os parMode prompt (istringstream (l ++ Str.endl ++ rest))
    parPids m
  = Undefined {| trace := trace m ++ [Write os prompt]; clock := clock m |}.
Proof.
  intros Hn Hc.
  rewrite loop_unfold, bind_emit, getline_line by assumption. cbv zeta.
  rewrite bare_directive_not_ignored by assumption.
  unfold bind at 1. rewrite processFirstWord_bare_directive by assumption.
  reflexivity.
Qed.

(** A directive with its path: the file is opened, the nested session
    runs, and the loop is left with the rest of its input unread. *)
Lemma loop_directive os parMode prompt l rest parPids m mode path is_n m_n :
  no_newline l = true -> directive (split l) = Some (mode, path) ->
  rec (ifstream (fs E path)) cout mode EmptyString
      {| trace := []; clock := clock m |} = Ok is_n m_n ->
  loop E rec os parMode prompt (istringstream (l ++ Str.endl ++ rest))
    parPids m
  = Ok (istringstream rest, parPids)
       {| trace := trace m
                   ++ [Write os prompt; Open path (can_open (fs E path));
                       Nested mode (trace m_n)];
          clock := clock m_n |}.
Proof.
  intros Hn Hd Hrec.
  rewrite loop_unfold, bind_emit, getline_line by assumption. cbv zeta.
  rewrite (directive_not_ignored _ _ _ Hd).
  unfold bind at 1. rewrite (processFirstWord_directive _ _ _ _ Hd).
  rewrite bind_emit. unfold bind at 1, nested. cbn [trace clock].
  rewrite Hrec. cbn. rewrite <- !app_assoc. reflexivity.
Qed.

(** The same on a last line that has no newline: the directive is
    obeyed before [eofbit] is looked at. *)
Lemma loop_directive_last os parMode prompt l parPids m mode path is_n m_n :
  no_newline l = true -> directive (split l) = Some (mode, path) ->
  rec (ifstream (fs E path)) cout mode EmptyString
      {| trace := []; clock := clock m |} = Ok is_n m_n ->
  loop E rec os parMode prompt (istringstream l) parPids m
  = Ok ({| buf := EmptyString; eofbit := true; failbit := false |}, parPids)
       {| trace := trace m
                   ++ [Write os prompt; Open path (can_open (fs E path));
                       Nested mode (trace m_n)];
          clock := clock m_n |}.
Proof.
  intros Hn Hd Hrec.
  assert (Hne : l <> EmptyString) by (intros ->; discriminate).
  rewrite loop_unfold, bind_emit, getline_last by assumption. cbv zeta.
  rewrite (directive_not_ignored _ _ _ Hd).
  unfold bind at 1. rewrite (processFirstWord_directive _ _ _ _ Hd).
  rewrite bind_emit. unfold bind at 1, nested. cbn [trace clock].
  rewrite Hrec. cbn. rewrite <- !app_assoc. reflexivity.
Qed.

End WithEnv.

End LoopFacts.

(** ** Sessions *)

Module SessionFacts.

Import RunFacts IStreamFacts LoopFacts.

(** *** Counting and ordering the events of a trace *)

Lemma process_events_launches os prompt cmds pids :
  filter is_process_event (launches os prompt cmds pids)
  = map (fun cp => Fork (fst cp) (snd cp)) (combine cmds pids).
Proof.
  unfold launches. induction (combine cmds pids) as [|cp l IH]; simpl.
  - reflexivity.
  - now rewrite IH.
Qed.

Lemma process_events_reaps pids codes :
  filter is_process_event (reaps pids codes)
  = map (fun pc => Wait (fst pc) (snd pc)) (combine pids codes).
Proof.
  unfold reaps. induction (combine pids codes) as [|pc l IH]; simpl.
  - reflexivity.
  - now rewrite IH.
Qed.

Lemma process_events_serial os prompt cmds answers :
  filter is_process_event (serial_events os prompt cmds answers)
  = flat_map spawn_await (combine cmds answers).
Proof.
  unfold serial_events.
  induction (combine cmds answers) as [|[c [pid code]] l IH]; simpl.
  - reflexivity.
  - now rewrite IH.
Qed.

(** At no point of a serial run of commands is more than one child
    launched and not yet reaped. *)
Lemma outstanding_serial os prompt cmds answers :
  forall k,
    List.length
      (outstanding []
         (firstn k (serial_events os prompt cmds answers
                    ++ [Write os prompt]))) <= 1.
Proof.
  unfold serial_events.
  induction (combine cmds answers) as [|[c [pid code]] l IH]; intros k.
  - destruct k as [|[|k]]; simpl; lia.
  - do 5 (destruct k as [|k]; [simpl; try lia|]).
    + destruct (Z.eq_dec pid pid); [simpl; lia | contradiction].
    + cbn [flat_map serial_step app firstn outstanding remove].
      destruct (Z.eq_dec pid pid); [|contradiction]. apply IH.
Qed.

Lemma length_serial_answers E t cmds :
  List.length (serial_answers E t cmds) = List.length cmds.
Proof.
  revert t. induction cmds as [|c cmds IH]; intros t; simpl;
    [reflexivity | now rewrite IH].
Qed.

Lemma length_launch_pids E t cmds :
  List.length (launch_pids E t cmds) = List.length cmds.
Proof.
  revert t. induction cmds as [|c cmds IH]; intros t; simpl;
    [reflexivity | now rewrite IH].
Qed.

Lemma length_reap_codes E t pids :
  List.length (reap_codes E t pids) = List.length pids.
Proof.
  revert t. induction pids as [|p pids IH]; intros t; simpl;
    [reflexivity | now rewrite IH].
Qed.

Section WithEnv.

Variable E : Env.
Variable rec : istream -> ostream -> bool -> string -> M istream.

(** *** Runs of commands *)

Lemma text_cons (l : string) (ls : list string) (rest : string) :
  text (l :: ls) ++ rest = l ++ Str.endl ++ (text ls ++ rest).
Proof. simpl. now rewrite !StrFacts.append_assoc. Qed.

Lemma loop_serial_commands os prompt (ls : list string) :
  forall rest parPids m,
    forallb command_line ls = true ->
    let cmds := map split ls in
    loop E rec os false prompt (istringstream (text ls ++ rest)) parPids m
    = loop E rec os false prompt (istringstream rest) parPids
        {| trace := trace m
                    ++ serial_events os prompt cmds
                         (serial_answers E (clock m) cmds);
           clock := clock m + 2 * List.length ls |}.
Proof.
  induction ls as [|l ls IH]; intros rest parPids m H cmds.
  - subst cmds. cbn. rewrite app_nil_r, Nat.add_0_r.
    now destruct m.
  - cbn [forallb] in H. apply andb_true_iff in H as [Hl Hls].
    rewrite text_cons, loop_command_serial by assumption.
    rewrite IH by assumption. subst cmds. cbn [trace clock map].
    f_equal. f_equal.
    + rewrite <- app_assoc. reflexivity.
    + cbn [List.length]. lia.
Qed.

Lemma loop_parallel_commands os prompt (ls : list string) :
  forall rest parPids m,
    forallb command_line ls = true ->
    let cmds := map split ls in
    let pids := launch_pids E (clock m) cmds in
    loop E rec os true prompt (istringstream (text ls ++ rest)) parPids m
    = loop E rec os true prompt (istringstream rest) (parPids ++ pids)%list
        {| trace := trace m ++ launches os prompt cmds pids;
           clock := clock m + List.length ls |}.
Proof.
  induction ls as [|l ls IH]; intros rest parPids m H cmds pids.
  - subst cmds pids. cbn. rewrite !app_nil_r, Nat.add_0_r.
    now destruct m.
  - cbn [forallb] in H. apply andb_true_iff in H as [Hl Hls].
    rewrite text_cons, loop_command_parallel by assumption.
    rewrite IH by assumption. subst cmds pids. cbn [trace clock map].
    rewrite <- !app_assoc. f_equal. f_equal.
    cbn [List.length]. lia.
Qed.

(** The wait for the children of a parallel session reaps them in the
    order of [parPids] and reports each on [std::cout]. *)
Lemma waitForParalellCommands_reaps (parPids : IntVec) :
  forall m,
    waitForParalellCommands E cout parPids m
    = Ok tt {| trace := trace m
                        ++ reaps parPids (reap_codes E (clock m) parPids);
               clock := clock m + List.length parPids |}.
Proof.
  induction parPids as [|pid pids IH]; intros m.
  - cbn. rewrite app_nil_r, Nat.add_0_r. now destruct m.
  - cbn [waitForParalellCommands].
    rewrite bind_syscall, bind_emit, IH. cbn [trace clock].
    f_equal. f_equal.
    + rewrite <- !app_assoc. reflexivity.
    + cbn [List.length]. lia.
Qed.

Lemma same_loop_bind {A} (c : M A) (k k' : A -> M (istream * IntVec)) m :
  (forall a m', same_loop (k a m') (k' a m')) ->
  same_loop (bind c k m) (bind c k' m).
Proof.
  intros H. unfold bind. destruct (c m); [apply H | exact eq_refl | exact I].
Qed.

(** A last command line without its newline changes nothing: the loop
    does what it does on the lines before it. *)
Lemma loop_drop_last os parMode prompt l (ls : list string) :
  forall parPids m,
    forallb no_newline ls = true -> command_line l = true ->
    same_loop
      (loop E rec os parMode prompt (istringstream (text ls ++ l)) parPids m)
      (loop E rec os parMode prompt (istringstream (text ls)) parPids m).
Proof.
  induction ls as [|a ls IH]; intros parPids m Hls Hl.
  - cbn [text append]. rewrite loop_command_last, loop_end by assumption.
    split; reflexivity.
  - cbn [forallb] in Hls. apply andb_true_iff in Hls as [Ha Hls].
    rewrite text_cons.
    replace (text (a :: ls)) with (a ++ Str.endl ++ text ls) by reflexivity.
    rewrite !loop_unfold, !bind_emit, !getline_line by assumption.
    cbv zeta. destruct (checkIgnore (split a)); [now apply IH|].
    apply same_loop_bind. intros go_on m'.
    destruct go_on; cbn [negb orb eof eofbit istringstream];
      [|split; reflexivity].
    destruct parMode; cbn [negb]; apply same_loop_bind; intros;
      now apply IH.
Qed.

(** Sessions whose loops do the same end the same. *)
Lemma session_same_run os parMode prompt is1 is2 m :
  same_loop (loop E rec os parMode prompt is1 [] m)
            (loop E rec os parMode prompt is2 [] m) ->
  same_run (session E rec is1 os parMode prompt m)
           (session E rec is2 os parMode prompt m).
Proof.
  unfold session, bind.
  destruct (loop E rec os parMode prompt is1 [] m) as [[i1 p1] m1|m1|];
    destruct (loop E rec os parMode prompt is2 [] m) as [[i2 p2] m2|m2|];
    cbn [same_loop]; try contradiction; try (intros H; exact H).
  intros [-> ->]. cbn [snd fst].
  destruct ((if parMode then waitForParalellCommands E cout p2 else ret tt)
              m2); cbn; trivial.
Qed.

End WithEnv.

(** *** The sessions of the program *)

Section Sessions.

Variable E : Env.

(** A parallel session over command lines, left by the loop in the way
    [leave] describes, reaps its children after the loop. *)
Lemma parallel_session d os prompt (ls : list string) rest is_end m :
  forallb command_line ls = true ->
  (forall parPids m',
     loop E (processCmds E d) os true prompt (istringstream rest) parPids m'
     = Ok (is_end, parPids)
          {| trace := trace m' ++ [Write os prompt]; clock := clock m' |}) ->
  let cmds := map split ls in
  let pids := launch_pids E (clock m) cmds in
  let codes := reap_codes E (clock m + List.length ls) pids in
  processCmds E (S d) (istringstream (text ls ++ rest)) os true prompt m
  = Ok is_end
       {| trace := trace m
                   ++ launches os prompt cmds pids
                   ++ Write os prompt :: reaps pids codes;
          clock := clock m + 2 * List.length ls |}.
Proof.
  intros Hls Hleave cmds pids codes.
  cbn [processCmds]. unfold session, bind.
  rewrite loop_parallel_commands, Hleave by assumption.
  cbn [snd fst trace clock app]. fold cmds. fold pids.
  rewrite waitForParalellCommands_reaps. cbn [trace clock]. unfold ret.
  f_equal. f_equal.
  - rewrite <- !app_assoc. reflexivity.
  - subst pids cmds. rewrite length_launch_pids, length_map. lia.
Qed.

Lemma parallel_process_events os prompt cmds pids codes :
  filter is_process_event
    (launches os prompt cmds pids ++ Write os prompt :: reaps pids codes)
  = (map (fun cp => Fork (fst cp) (snd cp)) (combine cmds pids)
     ++ map (fun pc => Wait (fst pc) (snd pc)) (combine pids codes))%list.
Proof.
  rewrite filter_app. cbn [filter is_process_event is_fork is_wait orb].
  now rewrite process_events_launches, process_events_reaps.
Qed.

(** The decimal text of a status reads back as that status. *)
Lemma show_int_read (z : Z) :
  option_map Z.of_int (NilZero.int_of_string (show_int z)) = Some z.
Proof.
  unfold show_int. rewrite NilZero.isi.
  - cbn. f_equal. apply DecimalZ.of_to.
  - destruct z; cbn; intros [=].
    now apply (DecimalPos.Unsigned.to_uint_nonnil p).
  - destruct z; cbn; intros [=].
    now apply (DecimalPos.Unsigned.to_uint_nonnil p).
Qed.

Lemma nth_launch_pids (E' : Env) cmds :
  forall t i, i < List.length cmds ->
    nth i (launch_pids E' t cmds) 0%Z = forkNexec E' (t + i) (nth i cmds []).
Proof.
  induction cmds as [|c cmds IH]; intros t i Hi; [cbn in Hi; lia|].
  destruct i as [|i]; cbn [launch_pids nth].
  - now rewrite Nat.add_0_r.
  - cbn in Hi. rewrite IH by lia. f_equal. lia.
Qed.

Lemma nth_reap_codes (E' : Env) pids :
  forall t i, i < List.length pids ->
    nth i (reap_codes E' t pids) 0%Z = waitpid E' (t + i) (nth i pids 0%Z).
Proof.
  induction pids as [|p pids IH]; intros t i Hi; [cbn in Hi; lia|].
  destruct i as [|i]; cbn [reap_codes nth].
  - now rewrite Nat.add_0_r.
  - cbn in Hi. rewrite IH by lia. f_equal. lia.
Qed.

(** C2. A parallel session over [N] command lines, each ended by its
    newline, followed by the end of the input: the run ends, and its
    events are the [N] launches in the order of the lines, the last prompt,
    and then the [N] waits, each with its report on [std::cout], in the
    order of the launches, whatever the kernel answers.  So every launch
    comes before every wait, and the statuses are reported in launch
    order.  The report that follows the wait for the i-th child launched
    is the text [Exit code: ], the status [waitpid] stored for that child
    in decimal, and a newline; the decimal text reads back as the
    status. *)
Theorem parallel_launch_then_reap d os prompt (ls : list string) m :
  forallb command_line ls = true ->
  let cmds := map split ls in
  let pids := launch_pids E (clock m) cmds in
  let codes := reap_codes E (clock m + List.length ls) pids in
  let events :=
    (launches os prompt cmds pids ++ Write os prompt :: reaps pids codes)%list
  in
  processCmds E (S d) (istringstream (text ls)) os true prompt m
  = Ok {| buf := EmptyString; eofbit := true; failbit := true |}
       {| trace := trace m ++ events;
          clock := clock m + 2 * List.length ls |}
  /\ List.length pids = List.length ls
  /\ List.length codes = List.length ls
  /\ filter is_process_event events
     = (map (fun cp => Fork (fst cp) (snd cp)) (combine cmds pids)
        ++ map (fun pc => Wait (fst pc) (snd pc)) (combine pids codes))%list
  /\ reaps pids codes
     = flat_map
         (fun pc =>
            [Wait (fst pc) (snd pc);
             Write cout ("Exit code: " ++ show_int (snd pc) ++ Str.endl)])
         (combine pids codes)
  /\ (forall i, i < List.length ls ->
        nth i pids 0%Z = forkNexec E (clock m + i) (nth i cmds [])
        /\ nth i codes 0%Z
           = waitpid E (clock m + List.length ls + i) (nth i pids 0%Z))
  /\ (forall z,
        option_map Z.of_int (NilZero.int_of_string (show_int z)) = Some z).
Proof.
  intros Hls cmds pids codes events.
  assert (Hp : List.length pids = List.length ls)
    by (subst pids cmds; now rewrite length_launch_pids, length_map).
  repeat split.
  - rewrite <- (StrFacts.append_nil_r (text ls)).
    apply parallel_session; [assumption|].
    intros parPids m'. apply loop_end.
  - exact Hp.
  - subst codes. now rewrite length_reap_codes.
  - apply parallel_process_events.
  - subst pids cmds. apply nth_launch_pids. now rewrite length_map.
  - subst codes. apply nth_reap_codes. lia.
  - apply show_int_read.
Qed.

(** C1, as amended. A parallel session that reads an [exit] line after
    [N] command lines reads no further line (the rest of the input is left
    in the stream), and then waits for each of the [N] children it has
    launched, in launch order, and reports each status on [std::cout]
    before it ends. *)
Theorem exit_parallel_reaps d os prompt (ls : list string) l rest m :
  forallb command_line ls = true -> exit_line l = true ->
  let cmds := map split ls in
  let pids := launch_pids E (clock m) cmds in
  let codes := reap_codes E (clock m + List.length ls) pids in
  processCmds E (S d) (istringstream (text ls ++ l ++ Str.endl ++ rest))
    os true prompt m
  = Ok (istringstream rest)
       {| trace := trace m
                   ++ launches os prompt cmds pids
                   ++ Write os prompt :: reaps pids codes;
          clock := clock m + 2 * List.length ls |}
  /\ List.length pids = List.length ls
  /\ List.length codes = List.length ls.
Proof.
  intros Hls Hl cmds pids codes.
  assert (Hp : List.length pids = List.length ls)
    by (subst pids cmds; now rewrite length_launch_pids, length_map).
  repeat split.
  - apply parallel_session; [assumption|].
    intros parPids m'. now apply loop_exit.
  - exact Hp.
  - subst codes. now rewrite length_reap_codes.
Qed.

(** C5. A serial session over [N] command lines, each ended by its
    newline: the run ends; its launches and waits are [N] pairs, a launch
    and the wait for it, one pair per line in the order of the lines, so
    each wait comes before the next launch; and after any number of its
    events at most one child is launched and not yet reaped. *)
Theorem serial_spawn_await_pairs d os prompt (ls : list string) m :
  forallb command_line ls = true ->
  let cmds := map split ls in
  let answers := serial_answers E (clock m) cmds in
  let events :=
    (serial_events os prompt cmds answers ++ [Write os prompt])%list in
  processCmds E (S d) (istringstream (text ls)) os false prompt m
  = Ok {| buf := EmptyString; eofbit := true; failbit := true |}
       {| trace := trace m ++ events;
          clock := clock m + 2 * List.length ls |}
  /\ List.length answers = List.length ls
  /\ filter is_process_event events
     = flat_map spawn_await (combine cmds answers)
  /\ forall k, List.length (outstanding [] (firstn k events)) <= 1.
Proof.
  intros Hls cmds answers events. repeat split.
  - cbn [processCmds]. unfold session, bind.
    rewrite <- (StrFacts.append_nil_r (text ls)).
    rewrite loop_serial_commands, loop_end by assumption.
    cbn [snd fst trace clock ret]. fold cmds. fold answers.
    subst events. now rewrite <- app_assoc.
  - subst answers cmds. now rewrite length_serial_answers, length_map.
  - subst events. rewrite filter_app, process_events_serial.
    cbn. now rewrite app_nil_r.
  - apply outstanding_serial.
Qed.

(** C9. A command on a last line that has no newline is dropped: a
    session over lines ended by newlines followed by such a command line
    does and answers exactly what it does without that line; alone in the
    input, the line gets the prompt and nothing else, and no child is
    launched. *)
Theorem unterminated_last_command_dropped d os parMode prompt
    (ls : list string) l m :
  forallb no_newline ls = true -> command_line l = true ->
  same_run
    (processCmds E d (istringstream (text ls ++ l)) os parMode prompt m)
    (processCmds E d (istringstream (text ls)) os parMode prompt m)
  /\ processCmds E (S d) (istringstream l) os parMode prompt m
     = Ok {| buf := EmptyString; eofbit := true; failbit := false |}
          {| trace := trace m ++ [Write os prompt]; clock := clock m |}.
Proof.
  intros Hls Hl. split.
  - destruct d as [|d]; [exact I|]. cbn [processCmds].
    apply session_same_run. now apply loop_drop_last.
  - cbn [processCmds]. unfold session, bind.
    rewrite loop_command_last by assumption. cbn [snd fst].
    destruct parMode; reflexivity.
Qed.

(** C6. A [SERIAL] or [PARALLEL] line with its path, read at any point
    of a session, with or without a newline at its end: the file is
    opened, a session of its own runs over it with [std::cout], the mode of
    the directive and the empty prompt, and when that session has ended
    the loop is left, with every later line of the enclosing input unread;
    a session that starts with such a line ends right after the nested
    one. *)
Theorem nested_directive_replaces d os parMode prompt l rest parPids m
    mode path is_n m_n :
  no_newline l = true -> directive (split l) = Some (mode, path) ->
  processCmds E d (ifstream (fs E path)) cout mode EmptyString
    {| trace := []; clock := clock m |} = Ok is_n m_n ->
  let after :=
    {| trace := trace m
                ++ [Write os prompt; Open path (can_open (fs E path));
                    Nested mode (trace m_n)];
       clock := clock m_n |} in
  loop E (processCmds E d) os parMode prompt
    (istringstream (l ++ Str.endl ++ rest)) parPids m
  = Ok (istringstream rest, parPids) after
  /\ loop E (processCmds E d) os parMode prompt (istringstream l) parPids m
     = Ok ({| buf := EmptyString; eofbit := true; failbit := false |},
           parPids) after
  /\ processCmds E (S d) (istringstream (l ++ Str.endl ++ rest)) os parMode
       prompt m
     = Ok (istringstream rest) after.
Proof.
  intros Hn Hd Hrun after.
  assert (H : forall pids,
             loop E (processCmds E d) os parMode prompt
               (istringstream (l ++ Str.endl ++ rest)) pids m
             = Ok (istringstream rest, pids) after)
    by (intros pids; now apply (loop_directive _ _ _ _ _ _ _ _ _ _ _ is_n)).
  split; [apply H|].
  split; [now apply (loop_directive_last _ _ _ _ _ _ _ _ _ _ is_n)|].
  cbn [processCmds]. unfold session, bind. rewrite H. cbn [snd fst].
  destruct parMode; reflexivity.
Qed.

(** C8. A [SERIAL] or [PARALLEL] line whose file cannot be opened: the
    nested session writes its empty prompt, reads nothing, launches
    nothing and ends; the enclosing session ends as after any nested
    session, and so does [main]. *)
Theorem nested_open_failure d os parMode prompt l rest m mode path :
  no_newline l = true -> directive (split l) = Some (mode, path) ->
  fs E path = None ->
  let body := [Write cout EmptyString] in
  let after t :=
    {| trace := t ++ [Write os prompt; Open path false; Nested mode body];
       clock := clock m |} in
  processCmds E (S d) (ifstream (fs E path)) cout mode EmptyString
    {| trace := []; clock := clock m |}
  = Ok {| buf := EmptyString; eofbit := false; failbit := true |}
       {| trace := body; clock := clock m |}
  /\ filter is_fork body = []
  /\ processCmds E (S (S d)) (istringstream (l ++ Str.endl ++ rest)) os
       parMode prompt m
     = Ok (istringstream rest) (after (trace m))
  /\ main E (S (S d)) (l ++ Str.endl ++ rest)
     = Ok (istringstream rest)
          {| trace := [Write cout "> "; Open path false; Nested mode body];
             clock := 0 |}.
Proof.
  intros Hn Hd Hfs body after.
  assert (Hnested : forall t,
    processCmds E (S d) (ifstream (fs E path)) cout mode EmptyString
      {| trace := []; clock := t |}
    = Ok {| buf := EmptyString; eofbit := false; failbit := true |}
         {| trace := body; clock := t |})
    by (intros t; rewrite Hfs; destruct mode; reflexivity).
  assert (Hloop : forall os' parMode' prompt' m',
    processCmds E (S (S d)) (istringstream (l ++ Str.endl ++ rest)) os'
      parMode' prompt' m'
    = Ok (istringstream rest)
         {| trace := trace m'
                     ++ [Write os' prompt'; Open path false;
                         Nested mode body];
            clock := clock m' |}).
  { intros os' parMode' prompt' m'.
    change (processCmds E (S (S d)))
      with (session E (processCmds E (S d))).
    unfold session, bind.
    rewrite (loop_directive E (processCmds E (S d)) os' parMode' prompt' l
               rest [] m' mode path _ _ Hn Hd (Hnested (clock m'))).
    rewrite Hfs. cbn [snd fst can_open trace clock].
    destruct parMode'; reflexivity. }
  repeat split.
  - apply Hnested.
  - apply Hloop.
  - unfold main. now rewrite Hloop.
Qed.

(** C4. A [SERIAL] or [PARALLEL] line without a path: [processFirstWord]
    evaluates [line[1]] on a vector of one word, past its end; the run has
    written the prompt and is undefined from there on; nothing is
    reported and no later line is read. *)
Theorem missing_path_reads_past_end d os parMode prompt rest m :
  processCmds E (S d) (istringstream ("SERIAL" ++ Str.endl ++ rest)) os
    parMode prompt m
  = Undefined {| trace := trace m ++ [Write os prompt]; clock := clock m |}
  /\ processCmds E (S d) (istringstream ("PARALLEL" ++ Str.endl ++ rest)) os
       parMode prompt m
     = Undefined
         {| trace := trace m ++ [Write os prompt]; clock := clock m |}.
Proof.
  split; cbn [processCmds]; unfold session, bind;
    rewrite loop_bare_directive; reflexivity.
Qed.

End Sessions.

(** C3. The line printed for a command is not always its words joined by
    single blanks: for [echo a b a] the blank after the second word is
    missing, because that word equals the last one. *)
Theorem running_repeated_last_word :
  let command := ["echo"; "a"; "b"; "a"] in
  split "echo a b a" = command
  /\ running command = "Running: echo ab a" ++ Str.endl
  /\ running command
     <> "Running: " ++ String.concat " " command ++ Str.endl
  /\ main Demo.env 1 (Demo.ln "echo a b a")
     = Ok {| buf := EmptyString; eofbit := true; failbit := true |}
          {| trace :=
               [Write cout "> "; Write cout ("Running: echo ab a" ++ Str.endl);
                Fork command 100; Wait 100 0;
                Write cout ("Exit code: 0" ++ Str.endl); Write cout "> "];
             clock := 2 |}.
Proof.
  cbv zeta. repeat split; try reflexivity. discriminate.
Qed.

End SessionFacts.

(** ** Where the output goes *)

Module OutputFacts.

Import RunFacts SessionFacts.

Lemma ostream_eqb_eq (a b : ostream) : ostream_eqb a b = true <-> a = b.
Proof.
  destruct a as [|n], b as [|k]; simpl; split; intros H;
    try discriminate; try reflexivity.
  - apply Nat.eqb_eq in H. now subst.
  - injection H as ->. apply Nat.eqb_refl.
Qed.

(** What goes only to [std::cout] does not go to another sink. *)
Lemma writes_only_none (os : ostream) :
  os <> cout ->
  forall e, writes_only cout e = true -> writes_none os e = true.
Proof.
  intros Hos.
  assert (Hc : negb (ostream_eqb cout os) = true)
    by (destruct os; [contradiction | reflexivity]).
  fix IH 1. intros [o t|c p|p n|path ok|mode body]; simpl;
    try reflexivity.
  - clear IH. intros H. apply ostream_eqb_eq in H. subst o. exact Hc.
  - revert body. fix IHb 1. intros [|e body]; simpl; [reflexivity|].
    intros H. apply andb_true_iff in H as [He Hb].
    apply andb_true_iff. split; [exact (IH e He) | exact (IHb body Hb)].
Qed.

Section Extends.

Context {A B : Type}.
Variable P : event -> Prop.

Lemma extends_ret (a : A) : extends P (ret a).
Proof. intros m. cbn. exists []. now rewrite app_nil_r. Qed.

Lemma extends_undefined : extends P (@undefined A).
Proof. intros m. cbn. exists []. now rewrite app_nil_r. Qed.

Lemma extends_too_deep : extends P (@too_deep A).
Proof. intros m. exact I. Qed.

Lemma extends_bind (c : M A) (k : A -> M B) :
  extends P c -> (forall a, extends P (k a)) -> extends P (bind c k).
Proof.
  intros Hc Hk m. unfold bind. specialize (Hc m).
  destruct (c m) as [a m1|m1|]; cbn in Hc |- *; [|exact Hc|exact I].
  destruct Hc as [e1 [H1 F1]]. specialize (Hk a m1).
  destruct (machine_of (k a m1)) as [m2|]; [|exact I].
  destruct Hk as [e2 [H2 F2]]. exists (e1 ++ e2)%list.
  rewrite H2, H1, app_assoc. split; [reflexivity|].
  apply Forall_app. now split.
Qed.

Lemma extends_syscall (answer : nat -> A) (ev : A -> event) :
  (forall a, P (ev a)) -> extends P (syscall answer ev).
Proof.
  intros H m. cbn. eexists. split; [reflexivity|]. now constructor.
Qed.

End Extends.

Lemma extends_emit (P : event -> Prop) (e : event) :
  P e -> extends P (emit e).
Proof.
  intros H m. cbn. eexists. split; [reflexivity|]. now constructor.
Qed.

Lemma extends_nested {A} (P Q : event -> Prop) (mode : bool) (c : M A) :
  extends Q c -> (forall body, Forall Q body -> P (Nested mode body)) ->
  extends P (nested mode c).
Proof.
  intros Hc HP m. unfold nested.
  specialize (Hc {| trace := []; clock := clock m |}).
  destruct (c _) as [a m1|m1|]; cbn in Hc |- *; [| |exact I];
    destruct Hc as [e1 [-> F1]]; eexists; (split; [reflexivity|]);
    constructor; auto.
Qed.

Lemma to_cout_nested (mode : bool) (body : list event) :
  Forall to_cout body -> to_cout (Nested mode body).
Proof.
  intros H. unfold to_cout. simpl. apply forallb_forall.
  intros e He. exact (proj1 (Forall_forall _ _) H e He).
Qed.

Lemma drain_events_reaps pids codes : Forall drain_event (reaps pids codes).
Proof.
  unfold reaps. induction (combine pids codes) as [|[p n] l IH]; simpl.
  - constructor.
  - constructor; [exact I|]. constructor; [|exact IH].
    split; [reflexivity | now exists n].
Qed.

Section WithEnv.

Variable E : Env.
Variable rec : istream -> ostream -> bool -> string -> M istream.

(** The nested sessions write to [std::cout] only. *)
Hypothesis rec_to_cout :
  forall is_ mode prompt, extends to_cout (rec is_ cout mode prompt).

Section Loop.

Variable P : event -> Prop.
Variables (os : ostream) (parMode : bool) (prompt : string).

Hypothesis P_prompt : P (Write os prompt).
Hypothesis P_running : forall c, P (Write os (running c)).
Hypothesis P_exit_code : parMode = false -> forall n, P (Write os (exit_code n)).
Hypothesis P_fork : forall c p, P (Fork c p).
Hypothesis P_wait : forall p n, P (Wait p n).
Hypothesis P_open : forall path ok, P (Open path ok).
Hypothesis P_nested :
  forall mode body, Forall to_cout body -> P (Nested mode body).

Lemma run_file_extends line mode : extends P (run_file E rec line mode).
Proof.
  unfold run_file. destruct (nth_error line 1) as [path|];
    [|apply extends_undefined].
  apply extends_bind; [now apply extends_emit|]. intros _.
  apply extends_bind; [|intros _; apply extends_ret].
  apply (extends_nested P to_cout); [apply rec_to_cout | apply P_nested].
Qed.

Lemma processFirstWord_extends line :
  extends P (processFirstWord E rec line).
Proof.
  unfold processFirstWord. destruct line as [|w line];
    [apply extends_undefined|].
  destruct (String.eqb w "exit"); [apply extends_ret|].
  destruct (String.eqb w "SERIAL"); [apply run_file_extends|].
  destruct (String.eqb w "PARALLEL"); [apply run_file_extends|].
  apply extends_ret.
Qed.

Lemma runParallelCommand_extends command parPids :
  extends P (runParallelCommand E os command parPids).
Proof.
  unfold runParallelCommand.
  apply extends_bind; [now apply extends_emit|]. intros _.
  apply extends_bind; [now apply extends_syscall|]. intros pid.
  apply extends_ret.
Qed.

Lemma runSerialCommand_extends command :
  parMode = false -> extends P (runSerialCommand E os command).
Proof.
  intros Hs. unfold runSerialCommand.
  apply extends_bind; [now apply extends_emit|]. intros _.
  apply extends_bind; [now apply extends_syscall|]. intros pid.
  apply extends_bind; [now apply extends_syscall|]. intros code.
  apply extends_emit. now apply P_exit_code.
Qed.

Lemma while_loop_extends (fuel : nat) :
  forall is_ parPids,
    extends P (while_loop E rec fuel os parMode prompt is_ parPids).
Proof.
  induction fuel as [|fuel IH]; intros is_ parPids;
    [apply extends_too_deep|].
  cbn [while_loop].
  apply extends_bind; [now apply extends_emit|]. intros _.
  destruct (getline is_) as [[line|] is']; [|apply extends_ret].
  cbv zeta. destruct (checkIgnore (split line)); [apply IH|].
  apply extends_bind; [apply processFirstWord_extends|]. intros go_on.
  destruct (negb go_on || eof is'); [apply extends_ret|].
  destruct (negb parMode) eqn:Hmode.
  - apply negb_true_iff in Hmode.
    apply extends_bind; [now apply runSerialCommand_extends|].
    intros _. apply IH.
  - apply extends_bind; [apply runParallelCommand_extends|].
    intros parPids'. apply IH.
Qed.

End Loop.

(** A session that writes to [std::cout] writes to it only, its nested
    sessions included. *)
Lemma session_to_cout is_ parMode prompt :
  extends to_cout (session E rec is_ cout parMode prompt).
Proof.
  unfold session.
  apply extends_bind.
  - apply while_loop_extends; try (intros; reflexivity).
    apply to_cout_nested.
  - intros [is' parPids]. apply extends_bind; [|intros _; apply extends_ret].
    destruct parMode; [|apply extends_ret]. intros m.
    rewrite waitForParalellCommands_reaps. cbn. eexists.
    split; [reflexivity|].
    unfold reaps. induction (combine _ _) as [|pc l IH]; simpl;
      repeat constructor. exact IH.
Qed.

End WithEnv.

Lemma processCmds_to_cout (E : Env) (d : nat) :
  forall is_ mode prompt,
    extends to_cout (processCmds E d is_ cout mode prompt).
Proof.
  induction d as [|d IH]; intros is_ mode prompt.
  - apply extends_too_deep.
  - cbn [processCmds]. now apply session_to_cout.
Qed.

Lemma writes_none_reaps (os : ostream) pids codes :
  os <> cout -> Forall (fun e => writes_none os e = true) (reaps pids codes).
Proof.
  intros Hos. unfold reaps.
  induction (combine pids codes) as [|[p n] l IH]; simpl.
  - constructor.
  - constructor; [reflexivity|]. constructor; [|exact IH].
    simpl. destruct os; [contradiction | reflexivity].
Qed.

(** C10. A session whose sink [os] is not [std::cout]: the events of the
    run are those of its loop followed by those of the wait for its
    children.  In the loop, every write of the session itself goes to
    [os] and is the prompt, a [Running] line or (serial mode) an
    [Exit code] line, and every nested session writes to [std::cout] only,
    nothing to [os].  The wait for the children, which only a parallel
    session has, writes its [Exit code] lines to [std::cout], nothing to
    [os]. *)
Theorem session_output_sinks (E : Env) d is_ os parMode prompt m m' :
  os <> cout ->
  machine_of (processCmds E d is_ os parMode prompt m) = Some m' ->
  exists body drain,
    trace m' = (trace m ++ body ++ drain)%list
    /\ Forall (own_event os parMode prompt) body
    /\ Forall (nested_away os) body
    /\ Forall drain_event drain
    /\ Forall (fun e => writes_none os e = true) drain
    /\ (parMode = false -> drain = []).
Proof.
  intros Hos. destruct d as [|d]; [discriminate|].
  cbn [processCmds]. unfold session, loop.
  set (P := fun e => own_event os parMode prompt e /\ nested_away os e).
  assert (HL : forall parPids,
             extends P (while_loop E (processCmds E d)
                          (S (String.length (buf is_))) os parMode prompt
                          is_ parPids)).
  { intros parPids. apply while_loop_extends;
      try (intros; split; exact I).
    - apply processCmds_to_cout.
    - split; [|exact I]. split; [reflexivity | now left].
    - intros c. split; [|exact I].
      split; [reflexivity | right; left; now exists c].
    - intros Hs n. split; [|exact I].
      split; [reflexivity | right; right; split; [exact Hs | now exists n]].
    - intros mode body Hb. pose proof (to_cout_nested mode body Hb) as Hc.
      split; [exact Hc | now apply writes_only_none]. }
  specialize (HL [] m). unfold bind.
  destruct (while_loop _ _ _ _ _ _ _ _ m) as [[is' pids] m1|m1|];
    cbn [machine_of] in HL; [| |discriminate].
  - destruct HL as [body [Hb FB]]. cbn [snd fst].
    assert (Hown : Forall (own_event os parMode prompt) body)
      by (revert FB; apply Forall_impl; intros e He; apply He).
    assert (Haway : Forall (nested_away os) body)
      by (revert FB; apply Forall_impl; intros e He; apply He).
    destruct parMode.
    + rewrite waitForParalellCommands_reaps. cbn.
      intros Heq. injection Heq as <-. cbn [trace].
      exists body, (reaps pids (reap_codes E (clock m1) pids)).
      rewrite Hb, <- app_assoc.
      repeat split; auto using drain_events_reaps, writes_none_reaps.
      discriminate.
    + cbn. intros Heq. injection Heq as <-.
      exists body, []. rewrite app_nil_r.
      repeat split; auto.
  - destruct HL as [body [Hb FB]]. cbn. intros Heq. injection Heq as <-.
    exists body, []. rewrite app_nil_r.
    repeat split; auto; revert FB; apply Forall_impl; intros e He; apply He.
Qed.

End OutputFacts.

(** * The statements at work in the small world *)

Module Witnesses.

Import Grammar TokenizerFacts SessionFacts OutputFacts Demo.

(** [ echo "hello world"  x] gives three words. *)
Lemma split_roundtrip_witness :
  let lead := " " in
  let ws := [(Bare "echo", " "); (Quoted "hello world", "  ");
             (Bare "x", EmptyString)] in
  blank lead = true /\ wf_line ws = true
  /\ split (lead ++ render_line ws) = ["echo"; "hello world"; "x"].
Proof.
  intros lead ws. split; [reflexivity|]. split; [reflexivity|].
  exact (proj1 (split_roundtrip lead ws eq_refl eq_refl)).
Defined.

(** C1, as stated, fails: a parallel session that reads [exit] after
    [sleep 1] still waits for the child 100 and reports its status. *)
Lemma exit_parallel_counterexample :
  let run :=
    processCmds env 1 (istringstream (ln "sleep 1" ++ ln "exit")) cout true
      EmptyString start in
  let events :=
    [Write cout EmptyString; Write cout (running ["sleep"; "1"]);
     Fork ["sleep"; "1"] 100; Write cout EmptyString;
     Wait 100 0; Write cout (exit_code 0)] in
  run = Ok (istringstream EmptyString) {| trace := events; clock := 2 |}
  /\ filter is_wait events = [Wait 100 0]
  /\ In (Write cout ("Exit code: 0" ++ Str.endl)) events.
Proof.
  cbv zeta. split; [reflexivity|]. split; [reflexivity|].
  simpl. tauto.
Qed.

Lemma exit_parallel_reaps_witness :
  let ls := ["sleep 2"; "sleep 1"] in
  forallb command_line ls = true /\ exit_line "exit" = true
  /\ processCmds env 1
       (istringstream (text ls ++ "exit" ++ Str.endl ++ ln "echo late"))
       (sink 1) true "$ " start
     = Ok (istringstream (ln "echo late"))
          {| trace :=
               [Write (sink 1) "$ "; Write (sink 1) (running ["sleep"; "2"]);
                Fork ["sleep"; "2"] 100;
                Write (sink 1) "$ "; Write (sink 1) (running ["sleep"; "1"]);
                Fork ["sleep"; "1"] 101;
                Write (sink 1) "$ ";
                Wait 100 0; Write cout (exit_code 0);
                Wait 101 256; Write cout (exit_code 256)];
             clock := 4 |}.
Proof.
  intros ls. split; [reflexivity|]. split; [reflexivity|].
  exact (proj1 (exit_parallel_reaps env 0 (sink 1) "$ " ls "exit"
                  (ln "echo late") start eq_refl eq_refl)).
Defined.

Lemma parallel_launch_then_reap_witness :
  let ls := ["sleep 2"; "sleep 1"] in
  forallb command_line ls = true
  /\ processCmds env 1 (istringstream (text ls)) (sink 1) true "$ " start
     = Ok {| buf := EmptyString; eofbit := true; failbit := true |}
          {| trace :=
               [Write (sink 1) "$ ";
                Write (sink 1) ("Running: sleep 2" ++ Str.endl);
                Fork ["sleep"; "2"] 100;
                Write (sink 1) "$ ";
                Write (sink 1) ("Running: sleep 1" ++ Str.endl);
                Fork ["sleep"; "1"] 101;
                Write (sink 1) "$ ";
                Wait 100 0; Write cout ("Exit code: 0" ++ Str.endl);
                Wait 101 256; Write cout ("Exit code: 256" ++ Str.endl)];
             clock := 4 |}.
Proof.
  intros ls. split; [reflexivity|].
  exact (proj1 (parallel_launch_then_reap env 0 (sink 1) "$ " ls start
                  eq_refl)).
Defined.

Lemma serial_spawn_await_pairs_witness :
  let ls := ["echo hi"; "ls -l"] in
  forallb command_line ls = true
  /\ processCmds env 1 (istringstream (text ls)) cout false "> " start
     = Ok {| buf := EmptyString; eofbit := true; failbit := true |}
          {| trace :=
               [Write cout "> "; Write cout (running ["echo"; "hi"]);
                Fork ["echo"; "hi"] 100; Wait 100 0;
                Write cout (exit_code 0);
                Write cout "> "; Write cout (running ["ls"; "-l"]);
                Fork ["ls"; "-l"] 102; Wait 102 0;
                Write cout (exit_code 0);
                Write cout "> "];
             clock := 4 |}.
Proof.
  intros ls. split; [reflexivity|].
  exact (proj1 (serial_spawn_await_pairs env 0 cout "> " ls start eq_refl)).
Defined.

Lemma unterminated_last_command_dropped_witness :
  let ls := ["echo hi"] in
  forallb no_newline ls = true /\ command_line "ls -l" = true
  /\ same_run
       (processCmds env 1 (istringstream (text ls ++ "ls -l")) cout false
          "> " start)
       (processCmds env 1 (istringstream (text ls)) cout false "> " start).
Proof.
  intros ls. split; [reflexivity|]. split; [reflexivity|].
  exact (proj1 (unterminated_last_command_dropped env 1 cout false "> " ls
                  "ls -l" start eq_refl eq_refl)).
Defined.

Lemma nested_directive_replaces_witness :
  let l := "PARALLEL batch.txt" in
  let is_n := {| buf := EmptyString; eofbit := true; failbit := true |} in
  let m_n :=
    {| trace :=
         [Write cout EmptyString; Write cout (running ["sleep"; "2"]);
          Fork ["sleep"; "2"] 100;
          Write cout EmptyString; Write cout (running ["sleep"; "1"]);
          Fork ["sleep"; "1"] 101;
          Write cout EmptyString;
          Wait 100 0; Write cout (exit_code 0);
          Wait 101 256; Write cout (exit_code 256)];
       clock := 4 |} in
  no_newline l = true /\ directive (split l) = Some (true, "batch.txt")
  /\ processCmds env 1 (ifstream (fs env "batch.txt")) cout true EmptyString
       {| trace := []; clock := clock start |} = Ok is_n m_n
  /\ processCmds env 2 (istringstream (l ++ Str.endl ++ ln "echo late"))
       cout false "> " start
     = Ok (istringstream (ln "echo late"))
          {| trace :=
               [Write cout "> "; Open "batch.txt" true;
                Nested true (trace m_n)];
             clock := 4 |}.
Proof.
  intros l is_n m_n. split; [reflexivity|]. split; [reflexivity|].
  split; [reflexivity|].
  exact (proj2 (proj2 (nested_directive_replaces env 1 cout false "> " l
                  (ln "echo late") [] start true "batch.txt" is_n m_n
                  eq_refl eq_refl eq_refl))).
Defined.

Lemma nested_open_failure_witness :
  let l := "SERIAL nofile.txt" in
  no_newline l = true /\ directive (split l) = Some (false, "nofile.txt")
  /\ fs env "nofile.txt" = None
  /\ main env 2 (l ++ Str.endl ++ ln "echo late")
     = Ok (istringstream (ln "echo late"))
          {| trace :=
               [Write cout "> "; Open "nofile.txt" false;
                Nested false [Write cout EmptyString]];
             clock := 0 |}.
Proof.
  intros l. split; [reflexivity|]. split; [reflexivity|].
  split; [reflexivity|].
  exact (proj2 (proj2 (proj2
           (nested_open_failure env 0 cout false "> " l (ln "echo late")
              start false "nofile.txt" eq_refl eq_refl eq_refl)))).
Defined.

(** A parallel session with sink 1 that launches [sleep 3] and then
    hands over to [batch.txt]. *)
Lemma session_output_sinks_witness :
  let input := ln "sleep 3" ++ ln "PARALLEL batch.txt" in
  let nested_body :=
    [Write cout EmptyString; Write cout (running ["sleep"; "2"]);
     Fork ["sleep"; "2"] 101;
     Write cout EmptyString; Write cout (running ["sleep"; "1"]);
     Fork ["sleep"; "1"] 102;
     Write cout EmptyString;
     Wait 101 256; Write cout (exit_code 256);
     Wait 102 512; Write cout (exit_code 512)] in
  let m' :=
    {| trace :=
         [Write (sink 1) "$ "; Write (sink 1) (running ["sleep"; "3"]);
          Fork ["sleep"; "3"] 100;
          Write (sink 1) "$ "; Open "batch.txt" true;
          Nested true nested_body;
          Wait 100 0; Write cout (exit_code 0)];
       clock := 6 |} in
  sink 1 <> cout
  /\ machine_of
       (processCmds env 2 (istringstream input) (sink 1) true "$ " start)
     = Some m'
  /\ exists body drain,
       trace m' = (trace start ++ body ++ drain)%list
       /\ Forall (own_event (sink 1) true "$ ") body
       /\ Forall (nested_away (sink 1)) body
       /\ Forall drain_event drain
       /\ Forall (fun e => writes_none (sink 1) e = true) drain
       /\ (true = false -> drain = []).
Proof.
  intros input nested_body m'.
  assert (Hos : sink 1 <> cout) by discriminate.
  split; [exact Hos|]. split; [reflexivity|].
  exact (session_output_sinks env 2 (istringstream input) (sink 1) true "$ "
           start m' Hos eq_refl).
Defined.

End Witnesses.

(** * Further properties of the tokenizer and of the printed command *)

Module TokenizerMore.

Import Grammar TokenizerFacts.

Lemma split_lead (lead s : string) :
  blank lead = true -> split (lead ++ s) = split s.
Proof.
  intros H. rewrite (split_unfold (lead ++ s)), (split_unfold s).
  unfold quoted. now rewrite skipws_blank.
Qed.

Lemma ends_word_blank (sep rest : string) :
  blank sep = true -> Str.is_empty sep = false ->
  ends_word (sep ++ rest) = true.
Proof.
  destruct sep as [|c sep]; simpl; [discriminate|].
  intros H _. now apply andb_true_iff in H as [Hc _].
Qed.

Lemma split_strict (ws : list (word * string)) :
  forall lead tail, blank lead = true -> strict_line ws = true ->
    split (lead ++ render_line ws ++ tail) = (words_of ws ++ split tail)%list.
Proof.
  induction ws as [|[w sep] r IH]; intros lead tail Hl Hw.
  - simpl. now apply split_lead.
  - cbn [strict_line forallb fst snd] in Hw.
    apply andb_true_iff in Hw as [Hw Hr].
    apply andb_true_iff in Hw as [Hw Hn].
    apply andb_true_iff in Hw as [Hw Hb].
    apply negb_true_iff in Hn.
    cbn [render_line words_of map fst app].
    rewrite !StrFacts.append_assoc.
    rewrite split_unfold, quoted_word; auto using ends_word_blank.
    f_equal. now apply IH.
Qed.

(** X1. Tokenizing composes: after leading whitespace and well-formed
    words, each followed by whitespace, [split] gives these words (their
    quoting removed) and then the words of whatever text follows. *)
Theorem split_prefix (lead : string) (ws : list (word * string))
    (tail : string) :
  blank lead = true -> strict_line ws = true ->
  split (lead ++ render_line ws ++ tail) = (words_of ws ++ split tail)%list.
Proof. apply split_strict. Qed.

(** A quotation that has no closing delimiter fails the extraction. *)
Lemma get_quoted_open (n : nat) :
  forall s, String.length s <= n -> no_delim s = true ->
    get_quoted s = None.
Proof.
  induction n as [|n IH]; intros s Hn Hs.
  - destruct s; [reflexivity | simpl in Hn; lia].
  - destruct s as [|c s]; [reflexivity|]. simpl in Hn, Hs |- *.
    apply andb_true_iff in Hs as [Hc Hs]. apply negb_true_iff in Hc.
    destruct (Ascii.eqb c escape).
    + destruct s as [|d s]; [reflexivity|]. simpl in Hn, Hs.
      apply andb_true_iff in Hs as [_ Hs].
      rewrite IH by (assumption || lia). reflexivity.
    + rewrite Hc, IH by (assumption || lia). reflexivity.
Qed.

(** X2. A quotation that is never closed is dropped with all that
    follows it: after well-formed words, an opening delimiter followed by
    text without a delimiter adds no word; [split] gives the words before
    it only. *)
Theorem split_unterminated_quote (lead : string) (ws : list (word * string))
    (s : string) :
  blank lead = true -> strict_line ws = true -> no_delim s = true ->
  split (lead ++ render_line ws ++ String delim s) = words_of ws.
Proof.
  intros Hl Hw Hs. rewrite split_strict by assumption.
  rewrite split_unfold. unfold quoted. cbn [skipws].
  change (isspace delim) with false. cbv iota.
  rewrite Ascii.eqb_refl, (get_quoted_open (String.length s)) by auto.
  apply app_nil_r.
Qed.

Lemma split_after_quoted (lead s tail : string) :
  blank lead = true ->
  split (lead ++ render (Quoted s) ++ tail) = s :: split tail.
Proof.
  intros Hl. rewrite split_unfold. unfold quoted.
  rewrite skipws_blank by assumption. cbn [render append skipws].
  change (isspace delim) with false. cbv iota.
  rewrite Ascii.eqb_refl, StrFacts.append_assoc. cbn [append].
  now rewrite get_quoted_escaped.
Qed.

(** X3. A quoted word ends at its closing delimiter, whatever follows:
    the text right after it, with no whitespace in between, starts the
    next word. *)
Theorem split_quoted_then (lead s tail : string) :
  blank lead = true ->
  split (lead ++ render (Quoted s) ++ tail) = s :: split tail.
Proof. apply split_after_quoted. Qed.

Lemma all_skipws (p : ascii -> bool) (s : string) :
  Str.all p s = true -> Str.all p (skipws s) = true.
Proof.
  induction s as [|c s IH]; simpl; [reflexivity|]. intros H.
  destruct (isspace c); [|exact H].
  apply andb_true_iff in H as [_ H]. auto.
Qed.

Lemma skipws_head (s : string) (c : ascii) (s' : string) :
  skipws s = String c s' -> isspace c = false.
Proof.
  induction s as [|x s IH]; simpl; [discriminate|].
  destruct (isspace x) eqn:Hx; [exact IH|].
  intros H. injection H as <- _. exact Hx.
Qed.

Lemma get_word_parts (p : ascii -> bool) (s : string) :
  Str.all p s = true ->
  no_space (fst (get_word s)) = true /\ Str.all p (snd (get_word s)) = true.
Proof.
  induction s as [|c s IH]; simpl; intros H; [now split|].
  apply andb_true_iff in H as [Hc Hs].
  destruct (isspace c) eqn:Hsp.
  - simpl. rewrite Hc, Hs. now split.
  - destruct (IH Hs) as [Hw Hr].
    destruct (get_word s) as [w r]. simpl in *.
    split; [|exact Hr]. unfold no_space in *. simpl. now rewrite Hsp, Hw.
Qed.

Lemma quoted_plain (s w r : string) :
  no_delim s = true -> quoted s = Some (w, r) ->
  (w <> EmptyString /\ no_space w = true) /\ no_delim r = true.
Proof.
  unfold quoted. intros Hs H.
  pose proof (all_skipws _ _ Hs) as Hk.
  destruct (skipws s) as [|c s'] eqn:Hsk; [discriminate|].
  apply skipws_head in Hsk.
  simpl in Hk. apply andb_true_iff in Hk as [Hc Hs'].
  apply negb_true_iff in Hc. rewrite Hc in H.
  simpl in H. rewrite Hsk in H.
  destruct (get_word_parts _ _ Hs') as [Hw Hr].
  destruct (get_word s') as [w' r']. simpl in Hw, Hr.
  injection H as <- <-. repeat split.
  - discriminate.
  - unfold no_space in *. simpl. now rewrite Hsk, Hw.
  - exact Hr.
Qed.

Lemma split_plain_words (n : nat) :
  forall s, String.length s <= n -> no_delim s = true ->
    Forall (fun w => w <> EmptyString /\ no_space w = true) (split s).
Proof.
  induction n as [|n IH]; intros s Hn Hs; rewrite split_unfold;
    destruct (quoted s) as [[w r]|] eqn:Hq; try (now constructor);
    pose proof (quoted_length _ _ _ Hq) as Hlen; [lia|].
  destruct (quoted_plain _ _ _ Hs Hq) as [Hw Hr].
  constructor; [exact Hw|]. apply IH; [lia | exact Hr].
Qed.

(** X4. On a line without a quotation mark every word [split] gives is
    non-empty and free of whitespace. *)
Theorem split_words_nonempty (line : string) :
  no_delim line = true ->
  Forall (fun w => w <> EmptyString /\ no_space w = true) (split line).
Proof. intros H. now apply (split_plain_words (String.length line)). Qed.

(** *** The printed command *)

Lemma print_words_joined (back : string) (init : StrVec) :
  ~ In back init ->
  print_words back (init ++ [back])%list = String.concat " " (init ++ [back])%list.
Proof.
  induction init as [|w init IH]; intros Hn.
  - cbn. rewrite String.eqb_refl. cbn. apply StrFacts.append_nil_r.
  - cbn [app print_words].
    destruct (String.eqb_spec w back) as [->|Hw];
      [exfalso; apply Hn; now left|].
    rewrite IH by (intros H; apply Hn; now right).
    cbn [String.concat]. destruct (init ++ [back])%list eqn:Hi;
      [now destruct init | reflexivity].
Qed.

Lemma print_words_length (back : string) (ws : StrVec) :
  String.length (print_words back ws)
  = total_length ws + List.length (others back ws).
Proof.
  induction ws as [|w ws IH]; [reflexivity|].
  cbn [print_words total_length others filter].
  rewrite !StrFacts.length_append, IH. fold (others back ws).
  destruct (String.eqb w back); cbn; lia.
Qed.

Lemma concat_length (w : string) (ws : StrVec) :
  String.length (String.concat " " (w :: ws))
  = total_length (w :: ws) + List.length ws.
Proof.
  revert w. induction ws as [|x ws IH]; intros w.
  - cbn. lia.
  - change (String.concat " " (w :: x :: ws))
      with (w ++ " " ++ String.concat " " (x :: ws)).
    rewrite !StrFacts.length_append, IH. cbn. lia.
Qed.

Lemma others_length (back : string) (ws : StrVec) :
  List.length (others back ws) <= List.length ws.
Proof. apply filter_length_le. Qed.

Lemma others_shorter (back : string) (ws : StrVec) :
  In back ws -> List.length (others back ws) < List.length ws.
Proof.
  induction ws as [|w ws IH]; intros H; [contradiction|].
  cbn [others filter]. fold (others back ws).
  pose proof (others_length back ws) as Hle.
  destruct (String.eqb_spec w back) as [->|Hw]; cbn; [lia|].
  destruct H as [H|H]; [contradiction|]. specialize (IH H). lia.
Qed.

(** X5. The line printed for a command is its words joined by single
    blanks exactly when its last word does not occur earlier in it. *)
Theorem running_joined_iff (init : StrVec) (back : string) :
  running (init ++ [back])%list
  = "Running: " ++ String.concat " " (init ++ [back])%list ++ Str.endl
  <-> ~ In back init.
Proof.
  unfold running. rewrite last_last. split.
  - intros Heq Hin. apply (f_equal String.length) in Heq.
    rewrite !StrFacts.length_append, print_words_length in Heq.
    destruct init as [|w init]; [contradiction|].
    cbn [app] in Heq. rewrite concat_length in Heq.
    assert (Ho : others back ((w :: init) ++ [back])%list
                 = others back (w :: init)).
    { unfold others. rewrite filter_app. cbn.
      rewrite String.eqb_refl. cbn. apply app_nil_r. }
    cbn [app] in Ho. rewrite Ho in Heq.
    pose proof (others_shorter back (w :: init) Hin) as Hlt.
    rewrite length_app in Heq. cbn [List.length] in Heq, Hlt. lia.
  - intros Hn. now rewrite print_words_joined.
Qed.

End TokenizerMore.

(** * Further properties of sessions *)

Module SessionMore.

Import RunFacts IStreamFacts LoopFacts SessionFacts.

Section WithEnv.

Variable E : Env.
Variable rec : istream -> ostream -> bool -> string -> M istream.

Lemma loop_ignored os parMode prompt l rest parPids m :
  ignored_line l = true ->
  loop E rec os parMode prompt (istringstream (l ++ Str.endl ++ rest))
    parPids m
  = loop E rec os parMode prompt (istringstream rest) parPids
      {| trace := trace m ++ [Write os prompt]; clock := clock m |}.
Proof.
  intros H. apply andb_true_iff in H as [Hn Hi].
  rewrite loop_unfold, bind_emit, getline_line by assumption. cbv zeta.
  now rewrite Hi.
Qed.

Lemma loop_ignored_lines os parMode prompt (ls : list string) :
  forall rest parPids m,
    forallb ignored_line ls = true ->
    loop E rec os parMode prompt (istringstream (text ls ++ rest)) parPids m
    = loop E rec os parMode prompt (istringstream rest) parPids
        {| trace := trace m ++ repeat (Write os prompt) (List.length ls);
           clock := clock m |}.
Proof.
  induction ls as [|l ls IH]; intros rest parPids m H.
  - cbn. rewrite app_nil_r. now destruct m.
  - cbn [forallb] in H. apply andb_true_iff in H as [Hl Hls].
    rewrite text_cons, loop_ignored, IH by assumption.
    cbn [trace clock List.length repeat].
    now rewrite <- app_assoc.
Qed.

Lemma runSerialCommand_run os c m :
  let pid := forkNexec E (clock m) c in
  let code := cp_wait E (S (clock m)) pid in
  runSerialCommand E os c m
  = Ok tt {| trace := trace m
                      ++ [Write os (running c); Fork c pid; Wait pid code;
                          Write os (exit_code code)];
             clock := S (S (clock m)) |}.
Proof.
  cbv zeta. unfold runSerialCommand.
  rewrite bind_emit, bind_syscall, bind_syscall. unfold emit.
  cbn [trace clock]. now rewrite <- !app_assoc.
Qed.

Lemma runParallelCommand_run os c parPids m :
  let pid := forkNexec E (clock m) c in
  runParallelCommand E os c parPids m
  = Ok (parPids ++ [pid])%list
       {| trace := trace m ++ [Write os (running c); Fork c pid];
          clock := S (clock m) |}.
Proof.
  cbv zeta. unfold runParallelCommand.
  rewrite bind_emit, bind_syscall. unfold ret.
  cbn [trace clock]. now rewrite <- !app_assoc.
Qed.

(** *** Launches and waits of a session *)

Lemma forked_app (a b : list event) :
  forked (a ++ b) = (forked a ++ forked b)%list.
Proof. apply flat_map_app. Qed.

Lemma waited_app (a b : list event) :
  waited (a ++ b) = (waited a ++ waited b)%list.
Proof. apply flat_map_app. Qed.

Lemma accounts_nil parMode (p : IntVec) : accounts parMode p p [].
Proof.
  split; [reflexivity|]. destruct parMode; cbn; [|now split].
  now rewrite app_nil_r.
Qed.

Lemma accounts_app parMode (p0 p1 p2 : IntVec) (e1 e2 : list event) :
  accounts parMode p0 p1 e1 -> accounts parMode p1 p2 e2 ->
  accounts parMode p0 p2 (e1 ++ e2).
Proof.
  intros [B1 H1] [B2 H2]. split.
  - rewrite forallb_app, B1, B2. reflexivity.
  - rewrite forked_app, waited_app. destruct parMode.
    + destruct H1 as [W1 ->], H2 as [W2 ->].
      rewrite W1, W2, app_assoc. now split.
    + destruct H1 as [F1 ->], H2 as [F2 ->]. rewrite F1, F2. now split.
Qed.

(** Events that launch nothing and wait for nothing. *)
Lemma accounts_quiet parMode (p : IntVec) (ext : list event) :
  forked ext = [] -> waited ext = [] -> forallb balanced ext = true ->
  accounts parMode p p ext.
Proof.
  intros F W B. split; [exact B|]. rewrite F, W.
  destruct parMode; [|now split]. now rewrite app_nil_r.
Qed.

Lemma accounts_chain parMode (p0 p1 p2 : IntVec) (m m1 m' : machine)
    (e1 : list event) :
  trace m1 = (trace m ++ e1)%list -> accounts parMode p0 p1 e1 ->
  (exists ext, trace m' = (trace m1 ++ ext)%list /\ accounts parMode p1 p2 ext) ->
  exists ext, trace m' = (trace m ++ ext)%list /\ accounts parMode p0 p2 ext.
Proof.
  intros T1 A1 [e2 [T2 A2]]. exists (e1 ++ e2)%list. split.
  - now rewrite T2, T1, app_assoc.
  - now apply (accounts_app parMode p0 p1 p2).
Qed.

(** The nested sessions settle their own children. *)
Hypothesis rec_settled :
  forall is_ os mode prompt t r m',
    rec is_ os mode prompt {| trace := []; clock := t |} = Ok r m' ->
    settled (trace m') = true.

Lemma run_file_quiet line mode m go m' :
  run_file E rec line mode m = Ok go m' ->
  exists ext, trace m' = (trace m ++ ext)%list
              /\ forked ext = [] /\ waited ext = []
              /\ forallb balanced ext = true.
Proof.
  unfold run_file. destruct (nth_error line 1) as [path|]; [|discriminate].
  rewrite bind_emit. unfold bind at 1, nested. cbn [trace clock].
  destruct (rec _ _ _ _ _) as [r m_n|m_n|] eqn:Hrec; try discriminate.
  cbn. intros H. injection H as _ <-. cbn [trace].
  exists [Open path (can_open (fs E path)); Nested mode (trace m_n)].
  rewrite <- app_assoc. repeat split.
  cbn [forallb balanced]. apply rec_settled in Hrec.
  unfold settled in Hrec. now rewrite Hrec.
Qed.

Lemma processFirstWord_quiet line m go m' :
  processFirstWord E rec line m = Ok go m' ->
  exists ext, trace m' = (trace m ++ ext)%list
              /\ forked ext = [] /\ waited ext = []
              /\ forallb balanced ext = true.
Proof.
  assert (Hret : forall b : bool, ret b m = Ok go m' ->
            exists ext, trace m' = (trace m ++ ext)%list
                        /\ forked ext = [] /\ waited ext = []
                        /\ forallb balanced ext = true).
  { intros b H. injection H as _ <-. exists []. now rewrite app_nil_r. }
  unfold processFirstWord. destruct line as [|w line]; [discriminate|].
  destruct (String.eqb w "exit"); [apply Hret|].
  destruct (String.eqb w "SERIAL"); [apply run_file_quiet|].
  destruct (String.eqb w "PARALLEL"); [apply run_file_quiet|].
  apply Hret.
Qed.

Lemma while_loop_accounts os parMode prompt (fuel : nat) :
  forall is_ parPids m r parPids' m',
    while_loop E rec fuel os parMode prompt is_ parPids m
    = Ok (r, parPids') m' ->
    exists ext, trace m' = (trace m ++ ext)%list
                /\ accounts parMode parPids parPids' ext.
Proof.
  induction fuel as [|fuel IH]; intros is_ parPids m r parPids' m' H;
    [discriminate|].
  cbn [while_loop] in H. rewrite bind_emit in H.
  set (m0 := {| trace := trace m ++ [Write os prompt]; clock := clock m |})
    in H.
  apply (accounts_chain parMode parPids parPids parPids' m m0 m'
           [Write os prompt]);
    [reflexivity | now apply accounts_quiet |].
  destruct (getline is_) as [[line|] is'].
  - cbv zeta in H. destruct (checkIgnore (split line));
      [exact (IH _ _ _ _ _ _ H)|].
    unfold bind at 1 in H.
    destruct (processFirstWord E rec (split line) m0) as [go m1|m1|] eqn:Hp;
      try discriminate.
    destruct (processFirstWord_quiet _ _ _ _ Hp) as [e1 [T1 [F1 [W1 B1]]]].
    apply (accounts_chain parMode parPids parPids parPids' m0 m1 m' e1 T1);
      [now apply accounts_quiet|].
    destruct (negb go || eof is').
    + injection H as _ <- <-. exists []. rewrite app_nil_r.
      split; [reflexivity | apply accounts_nil].
    + set (c := split line) in *.
      destruct parMode; cbn [negb] in H; unfold bind at 1 in H.
      * rewrite runParallelCommand_run in H. cbv zeta in H.
        set (pid := forkNexec E (clock m1) c) in *.
        match type of H with _ ?m2 = _ =>
          apply (accounts_chain true parPids (parPids ++ [pid])%list
                   parPids' m1 m2 m' [Write os (running c); Fork c pid]
                   eq_refl)
        end; [|exact (IH _ _ _ _ _ _ H)].
        split; [reflexivity|]. now split.
      * rewrite runSerialCommand_run in H. cbv zeta in H.
        set (pid := forkNexec E (clock m1) c) in *.
        set (code := cp_wait E (S (clock m1)) pid) in *.
        match type of H with _ ?m2 = _ =>
          apply (accounts_chain false parPids parPids parPids' m1 m2 m'
                   [Write os (running c); Fork c pid; Wait pid code;
                    Write os (exit_code code)] eq_refl)
        end; [|exact (IH _ _ _ _ _ _ H)].
        split; [reflexivity|]. now split.
  - injection H as _ <- <-. exists []. rewrite app_nil_r.
    split; [reflexivity | apply accounts_nil].
Qed.

Lemma waited_reaps (pids codes : list Z) :
  List.length codes = List.length pids -> waited (reaps pids codes) = pids.
Proof.
  unfold reaps. revert codes.
  induction pids as [|p pids IH]; intros [|c codes] Hl;
    try discriminate; [reflexivity|].
  cbn. f_equal. apply IH. now injection Hl.
Qed.

Lemma forked_reaps (pids codes : list Z) : forked (reaps pids codes) = [].
Proof.
  unfold reaps. induction (combine pids codes) as [|pc l IH];
    [reflexivity | exact IH].
Qed.

Lemma balanced_reaps (pids codes : list Z) :
  forallb balanced (reaps pids codes) = true.
Proof.
  unfold reaps. induction (combine pids codes) as [|pc l IH];
    [reflexivity | exact IH].
Qed.

Lemma pids_eqb_refl (a : list Z) : pids_eqb a a = true.
Proof. unfold pids_eqb. destruct (list_eq_dec Z.eq_dec a a); congruence. Qed.

Lemma pids_eqb_eq (a b : list Z) : pids_eqb a b = true -> a = b.
Proof.
  unfold pids_eqb. destruct (list_eq_dec Z.eq_dec a b);
    [trivial | discriminate].
Qed.

Lemma session_settled is_ os parMode prompt m r m' :
  session E rec is_ os parMode prompt m = Ok r m' ->
  exists ext, trace m' = (trace m ++ ext)%list /\ settled ext = true.
Proof.
  unfold session, loop. unfold bind at 1.
  destruct (while_loop _ _ _ _ _ _ _ _ m) as [[is' pids] m1|m1|] eqn:Hl;
    try discriminate.
  destruct (while_loop_accounts _ _ _ _ _ _ _ _ _ _ Hl)
    as [ext [T [B A]]].
  cbn [snd fst]. destruct parMode.
  - destruct A as [W ->]. cbn [app] in *. unfold bind.
    rewrite waitForParalellCommands_reaps. cbn.
    intros H. injection H as _ <-. cbn [trace].
    eexists. split; [now rewrite T, <- app_assoc|].
    unfold settled.
    rewrite forked_app, waited_app, forallb_app, forked_reaps, W, B,
      balanced_reaps, waited_reaps, app_nil_r
      by apply length_reap_codes.
    now rewrite pids_eqb_refl.
  - destruct A as [F _]. cbn. intros H. injection H as _ <-.
    exists ext. split; [exact T|]. unfold settled.
    now rewrite F, pids_eqb_refl, B.
Qed.

End WithEnv.

Lemma processCmds_settled (E : Env) (d : nat) :
  forall is_ os parMode prompt m r m',
    processCmds E d is_ os parMode prompt m = Ok r m' ->
    exists ext, trace m' = (trace m ++ ext)%list /\ settled ext = true.
Proof.
  induction d as [|d IH]; intros is_ os parMode prompt m r m' H;
    [discriminate|].
  cbn [processCmds] in H. apply session_settled in H; [exact H|].
  intros is0 os0 mode0 prompt0 t r0 m0 H0.
  destruct (IH _ _ _ _ _ _ _ H0) as [ext [T S]]. cbn in T. now rewrite T.
Qed.

Section Plain.

Variable E : Env.
Variable rec : istream -> ostream -> bool -> string -> M istream.

(** On a line that is not skipped and names no file, [processFirstWord]
    only answers. *)
Lemma processFirstWord_plain (line : StrVec) :
  checkIgnore line = false -> is_directive_word line = false ->
  exists go, forall m, processFirstWord E rec line m = Ok go m.
Proof.
  destruct line as [|w line]; [discriminate|]. intros _ H.
  cbn in H. apply orb_false_iff in H as [Hs Hp].
  cbn [processFirstWord]. rewrite Hs, Hp.
  destruct (String.eqb w "exit"); eexists; reflexivity.
Qed.

(** The loop once [eofbit] is set: the prompt, and a read that fails. *)
Lemma loop_at_eof os parMode prompt parPids m :
  loop E rec os parMode prompt
    {| buf := EmptyString; eofbit := true; failbit := false |} parPids m
  = Ok ({| buf := EmptyString; eofbit := true; failbit := true |}, parPids)
       {| trace := trace m ++ [Write os prompt]; clock := clock m |}.
Proof. reflexivity. Qed.

Lemma returns_unnested_chain {A} (o : outcome A) (m m1 : machine)
    (e1 : list event) :
  trace m1 = (trace m ++ e1)%list -> existsb nests e1 = false ->
  returns_unnested o m1 -> returns_unnested o m.
Proof.
  intros T1 N1 [a [m' [Ho [e2 [T2 N2]]]]]. exists a, m'.
  split; [exact Ho|]. exists (e1 ++ e2)%list. split.
  - now rewrite T2, T1, app_assoc.
  - now rewrite existsb_app, N1, N2.
Qed.

Lemma returns_unnested_ok {A} (a : A) (m : machine) :
  returns_unnested (Ok a m) m.
Proof.
  exists a, m. split; [reflexivity|]. exists []. now rewrite app_nil_r.
Qed.

(** The run goes on from a machine that has some more events, none of
    which opens a file or nests a session. *)
Ltac chain_unnested :=
  match goal with
  | |- returns_unnested (Ok _ ?m1) ?m =>
      apply (returns_unnested_chain _ m m1 _ eq_refl); [reflexivity|]
  | |- returns_unnested (_ ?m1) ?m =>
      apply (returns_unnested_chain _ m m1 _ eq_refl); [reflexivity|]
  end.

Lemma loop_plain_last os parMode prompt last parPids m :
  plain_line last = true ->
  returns_unnested
    (loop E rec os parMode prompt (istringstream last) parPids m) m.
Proof.
  intros H. apply andb_true_iff in H as [Hn Hd].
  apply negb_true_iff in Hd.
  set (m0 := {| trace := trace m ++ [Write os prompt]; clock := clock m |}).
  apply (returns_unnested_chain _ m m0 [Write os prompt] eq_refl eq_refl).
  destruct last as [|c last];
    [rewrite loop_end; apply returns_unnested_ok|].
  rewrite loop_unfold, bind_emit, getline_last by (assumption || discriminate).
  fold m0. cbv zeta.
  destruct (checkIgnore (split (String c last))) eqn:Hi.
  - rewrite loop_at_eof. chain_unnested. apply returns_unnested_ok.
  - destruct (processFirstWord_plain _ Hi Hd) as [go Hgo].
    unfold bind at 1. rewrite Hgo. cbn [eof eofbit].
    rewrite orb_true_r. apply returns_unnested_ok.
Qed.

Lemma loop_plain os parMode prompt last (ls : list string) :
  forall parPids m,
    forallb plain_line ls = true -> plain_line last = true ->
    returns_unnested
      (loop E rec os parMode prompt (istringstream (text ls ++ last))
         parPids m) m.
Proof.
  induction ls as [|a ls IH]; intros parPids m Hls Hlast.
  - cbn [text append]. now apply loop_plain_last.
  - cbn [forallb] in Hls. apply andb_true_iff in Hls as [Ha Hls].
    apply andb_true_iff in Ha as [Hn Hd]. apply negb_true_iff in Hd.
    set (m0 := {| trace := trace m ++ [Write os prompt];
                  clock := clock m |}).
    apply (returns_unnested_chain _ m m0 [Write os prompt] eq_refl eq_refl).
    rewrite text_cons, loop_unfold, bind_emit, getline_line by assumption.
    fold m0. cbv zeta.
    destruct (checkIgnore (split a)) eqn:Hi; [now apply IH|].
    destruct (processFirstWord_plain _ Hi Hd) as [go Hgo].
    unfold bind at 1. rewrite Hgo. cbn [eof eofbit istringstream].
    rewrite orb_false_r.
    destruct go; cbn [negb]; [|apply returns_unnested_ok].
    destruct parMode; cbn [negb]; unfold bind at 1.
    + rewrite runParallelCommand_run. cbv zeta. chain_unnested.
      now apply IH.
    + rewrite runSerialCommand_run. cbv zeta. chain_unnested.
      now apply IH.
Qed.

Lemma reaps_unnested (pids codes : list Z) :
  existsb nests (reaps pids codes) = false.
Proof.
  unfold reaps. induction (combine pids codes) as [|pc l IH];
    [reflexivity | exact IH].
Qed.

End Plain.

(** *** Sessions, again *)

Section Sessions.

Variable E : Env.

(** X6. A skipped line (blank, or a comment) only costs a prompt: a
    session over such a line followed by the rest of the input does what
    it does on the rest alone, after one more prompt. *)
Theorem ignored_line_skipped d os parMode prompt l rest m :
  ignored_line l = true ->
  processCmds E (S d) (istringstream (l ++ Str.endl ++ rest)) os parMode
    prompt m
  = processCmds E (S d) (istringstream rest) os parMode prompt
      {| trace := trace m ++ [Write os prompt]; clock := clock m |}.
Proof.
  intros H. cbn [processCmds]. unfold session, bind.
  now rewrite loop_ignored.
Qed.

(** X7. A session over skipped lines only writes one prompt per line and
    one more, launches nothing and ends. *)
Theorem only_ignored_lines d os parMode prompt (ls : list string) m :
  forallb ignored_line ls = true ->
  processCmds E (S d) (istringstream (text ls)) os parMode prompt m
  = Ok {| buf := EmptyString; eofbit := true; failbit := true |}
       {| trace := trace m
                   ++ repeat (Write os prompt) (S (List.length ls));
          clock := clock m |}.
Proof.
  intros H. cbn [processCmds]. unfold session, bind.
  rewrite <- (StrFacts.append_nil_r (text ls)).
  rewrite loop_ignored_lines, loop_end by assumption.
  cbn [snd fst trace clock].
  replace (S (List.length ls)) with (List.length ls + 1) by lia.
  rewrite repeat_app, <- app_assoc. cbn [repeat].
  destruct parMode; reflexivity.
Qed.

(** X8. A serial session that reads an [exit] line after [N] command
    lines has run the [N] commands, each reaped before the next, writes no
    prompt after the one before [exit], and leaves the rest of the input
    unread. *)
Theorem exit_serial d os prompt (ls : list string) l rest m :
  forallb command_line ls = true -> exit_line l = true ->
  let cmds := map split ls in
  let answers := serial_answers E (clock m) cmds in
  processCmds E (S d) (istringstream (text ls ++ l ++ Str.endl ++ rest))
    os false prompt m
  = Ok (istringstream rest)
       {| trace := trace m
                   ++ serial_events os prompt cmds answers
                   ++ [Write os prompt];
          clock := clock m + 2 * List.length ls |}.
Proof.
  intros Hls Hl cmds answers. cbn [processCmds]. unfold session, bind.
  rewrite loop_serial_commands, loop_exit by assumption.
  cbn [snd fst trace clock ret]. fold cmds. fold answers.
  unfold ret. now rewrite <- app_assoc.
Qed.

(** X9. A parallel session that reads a [SERIAL] or [PARALLEL] line after
    [N] command lines: the nested session runs and ends first, with its
    own children; only then does the enclosing session wait for its [N]
    children, in launch order; the rest of its input is left unread. *)
Theorem parallel_then_nested d os prompt (ls : list string) l rest m
    mode path is_n m_n :
  forallb command_line ls = true ->
  no_newline l = true -> directive (split l) = Some (mode, path) ->
  processCmds E d (ifstream (fs E path)) cout mode EmptyString
    {| trace := []; clock := clock m + List.length ls |} = Ok is_n m_n ->
  let cmds := map split ls in
  let pids := launch_pids E (clock m) cmds in
  let codes := reap_codes E (clock m_n) pids in
  processCmds E (S d) (istringstream (text ls ++ l ++ Str.endl ++ rest))
    os true prompt m
  = Ok (istringstream rest)
       {| trace := trace m
                   ++ launches os prompt cmds pids
                   ++ [Write os prompt; Open path (can_open (fs E path));
                       Nested mode (trace m_n)]
                   ++ reaps pids codes;
          clock := clock m_n + List.length ls |}.
Proof.
  intros Hls Hn Hd Hrun cmds pids codes.
  cbn [processCmds]. unfold session, bind.
  rewrite loop_parallel_commands by assumption.
  rewrite (loop_directive E (processCmds E d) os true prompt l rest _
             {| trace := _; clock := clock m + List.length ls |}
             mode path is_n m_n Hn Hd Hrun).
  cbn [snd fst trace clock app]. fold cmds. fold pids.
  rewrite waitForParalellCommands_reaps. cbn [trace clock]. unfold ret.
  f_equal. f_equal.
  - now rewrite <- !app_assoc.
  - subst pids cmds. now rewrite length_launch_pids, length_map.
Qed.

(** X10. Every session that ends has waited for exactly the children it
    has launched itself, once each and in launch order, and so has every
    session nested in it: no child is left behind and none is waited for
    twice. *)
Theorem children_all_reaped d is_ os parMode prompt m r m' :
  processCmds E d is_ os parMode prompt m = Ok r m' ->
  exists ext,
    trace m' = (trace m ++ ext)%list
    /\ forked ext = waited ext
    /\ forallb balanced ext = true.
Proof.
  intros H. destruct (processCmds_settled E d _ _ _ _ _ _ _ H)
    as [ext [T S]].
  exists ext. unfold settled in S. apply andb_true_iff in S as [S1 S2].
  split; [exact T|]. split; [now apply pids_eqb_eq | exact S2].
Qed.

(** X11. A script none of whose lines names a file to run is safe: the
    run never reaches the read of [line[1]] past the end of a vector (it is
    never undefined), never needs a nested session, and when it has ended
    it has opened no file and nested no session; this with or without a
    newline after the last line.  Whether the waits for its commands
    return is not the matter here. *)
Theorem plain_script_safe d os parMode prompt (ls : list string) last m :
  forallb plain_line ls = true -> plain_line last = true ->
  let run :=
    processCmds E (S d) (istringstream (text ls ++ last)) os parMode prompt m
  in
  (forall m'', run <> Undefined m'')
  /\ run <> TooDeep
  /\ forall m', machine_of run = Some m' ->
       exists ext, trace m' = (trace m ++ ext)%list
                   /\ existsb nests ext = false.
Proof.
  intros Hls Hlast run.
  assert (H : returns_unnested run m).
  { subst run. cbn [processCmds]. unfold session. unfold bind at 1.
    destruct (loop_plain E (processCmds E d) os parMode prompt last ls [] m
                Hls Hlast) as [[r pids] [m1 [-> [e1 [T1 N1]]]]].
    cbn [snd fst].
    apply (returns_unnested_chain _ m m1 e1 T1 N1).
    destruct parMode.
    - unfold bind. rewrite waitForParalellCommands_reaps. unfold ret.
      match goal with
      | |- returns_unnested (Ok _ ?m2) _ =>
          apply (returns_unnested_chain _ m1 m2 _ eq_refl)
      end; [apply reaps_unnested | apply returns_unnested_ok].
    - apply returns_unnested_ok. }
  destruct H as [a [m1 [-> [ext [T N]]]]].
  split; [discriminate|]. split; [discriminate|].
  intros m' H. injection H as <-. now exists ext.
Qed.

End Sessions.

End SessionMore.

(** * The further statements at work in the small world *)

Module MoreWitnesses.

Import Grammar TokenizerMore SessionMore Demo.

Lemma split_prefix_witness :
  let lead := " " in
  let ws := [(Bare "echo", " "); (Quoted "a b", "  ")] in
  blank lead = true /\ strict_line ws = true
  /\ split (lead ++ render_line ws ++ "x  y") = ["echo"; "a b"; "x"; "y"].
Proof.
  intros lead ws. split; [reflexivity|]. split; [reflexivity|].
  exact (split_prefix lead ws "x  y" eq_refl eq_refl).
Defined.

Lemma split_unterminated_quote_witness :
  let ws := [(Bare "echo", " ")] in
  blank EmptyString = true /\ strict_line ws = true
  /\ no_delim "hello world" = true
  /\ split (EmptyString ++ render_line ws ++ String delim "hello world")
     = ["echo"].
Proof.
  intros ws. split; [reflexivity|]. split; [reflexivity|].
  split; [reflexivity|].
  exact (split_unterminated_quote EmptyString ws "hello world"
           eq_refl eq_refl eq_refl).
Defined.

Lemma split_quoted_then_witness :
  blank " " = true
  /\ split (" " ++ render (Quoted "a b") ++ "c d") = ["a b"; "c"; "d"].
Proof.
  split; [reflexivity|].
  exact (split_quoted_then " " "a b" "c d" eq_refl).
Defined.

Lemma split_words_nonempty_witness :
  no_delim "  ls  -l " = true
  /\ Forall (fun w => w <> EmptyString /\ no_space w = true)
       (split "  ls  -l ").
Proof.
  split; [reflexivity|].
  exact (split_words_nonempty "  ls  -l " eq_refl).
Defined.

Lemma ignored_line_skipped_witness :
  ignored_line "# note" = true
  /\ processCmds env 1 (istringstream ("# note" ++ Str.endl ++ ln "echo hi"))
       cout false "> " start
     = processCmds env 1 (istringstream (ln "echo hi")) cout false "> "
         {| trace := [Write cout "> "]; clock := 0 |}.
Proof.
  split; [reflexivity|].
  exact (ignored_line_skipped env 0 cout false "> " "# note" (ln "echo hi")
           start eq_refl).
Defined.

Lemma only_ignored_lines_witness :
  let ls := ["# a"; "   "; EmptyString] in
  forallb ignored_line ls = true
  /\ processCmds env 1 (istringstream (text ls)) cout true "> " start
     = Ok {| buf := EmptyString; eofbit := true; failbit := true |}
          {| trace := [Write cout "> "; Write cout "> "; Write cout "> ";
                       Write cout "> "];
             clock := 0 |}.
Proof.
  intros ls. split; [reflexivity|].
  exact (only_ignored_lines env 0 cout true "> " ls start eq_refl).
Defined.

Lemma exit_serial_witness :
  let ls := ["echo hi"] in
  forallb command_line ls = true /\ exit_line "exit" = true
  /\ processCmds env 1
       (istringstream (text ls ++ "exit" ++ Str.endl ++ ln "ls"))
       cout false "> " start
     = Ok (istringstream (ln "ls"))
          {| trace :=
               [Write cout "> "; Write cout (running ["echo"; "hi"]);
                Fork ["echo"; "hi"] 100; Wait 100 0;
                Write cout (exit_code 0); Write cout "> "];
             clock := 2 |}.
Proof.
  intros ls. split; [reflexivity|]. split; [reflexivity|].
  exact (exit_serial env 0 cout "> " ls "exit" (ln "ls") start
           eq_refl eq_refl).
Defined.

Lemma parallel_then_nested_witness :
  let ls := ["sleep 3"] in
  let l := "PARALLEL batch.txt" in
  let is_n := {| buf := EmptyString; eofbit := true; failbit := true |} in
  let m_n :=
    {| trace :=
         [Write cout EmptyString; Write cout (running ["sleep"; "2"]);
          Fork ["sleep"; "2"] 101;
          Write cout EmptyString; Write cout (running ["sleep"; "1"]);
          Fork ["sleep"; "1"] 102;
          Write cout EmptyString;
          Wait 101 256; Write cout (exit_code 256);
          Wait 102 512; Write cout (exit_code 512)];
       clock := 5 |} in
  forallb command_line ls = true /\ no_newline l = true
  /\ directive (split l) = Some (true, "batch.txt")
  /\ processCmds env 1 (ifstream (fs env "batch.txt")) cout true EmptyString
       {| trace := []; clock := clock start + List.length ls |}
     = Ok is_n m_n
  /\ processCmds env 2
       (istringstream (text ls ++ l ++ Str.endl ++ EmptyString))
       (sink 1) true "$ " start
     = Ok (istringstream EmptyString)
          {| trace :=
               [Write (sink 1) "$ "; Write (sink 1) (running ["sleep"; "3"]);
                Fork ["sleep"; "3"] 100;
                Write (sink 1) "$ "; Open "batch.txt" true;
                Nested true (trace m_n);
                Wait 100 0; Write cout (exit_code 0)];
             clock := 6 |}.
Proof.
  intros ls l is_n m_n. split; [reflexivity|]. split; [reflexivity|].
  split; [reflexivity|]. split; [reflexivity|].
  exact (parallel_then_nested env 1 (sink 1) "$ " ls l EmptyString start
           true "batch.txt" is_n m_n eq_refl eq_refl eq_refl eq_refl).
Defined.

Lemma children_all_reaped_witness :
  let input := ln "sleep 3" ++ ln "PARALLEL batch.txt" in
  let body :=
    [Write cout EmptyString; Write cout (running ["sleep"; "2"]);
     Fork ["sleep"; "2"] 101;
     Write cout EmptyString; Write cout (running ["sleep"; "1"]);
     Fork ["sleep"; "1"] 102;
     Write cout EmptyString;
     Wait 101 256; Write cout (exit_code 256);
     Wait 102 512; Write cout (exit_code 512)] in
  let m' :=
    {| trace :=
         [Write cout "> "; Write cout (running ["sleep"; "3"]);
          Fork ["sleep"; "3"] 100;
          Write cout "> "; Open "batch.txt" true; Nested true body;
          Wait 100 0; Write cout (exit_code 0)];
       clock := 6 |} in
  processCmds env 2 (istringstream input) cout true "> " start
  = Ok (istringstream EmptyString) m'
  /\ exists ext,
       trace m' = (trace start ++ ext)%list
       /\ forked ext = waited ext
       /\ forallb balanced ext = true.
Proof.
  intros input body m'. split; [reflexivity|].
  exact (children_all_reaped env 2 (istringstream input) cout true "> "
           start (istringstream EmptyString) m' eq_refl).
Defined.

Lemma plain_script_safe_witness :
  let ls := ["# c"; "echo hi"; "exit"; "never"] in
  let run :=
    processCmds env 1 (istringstream (text ls ++ "tail")) cout false "> "
      start in
  forallb plain_line ls = true /\ plain_line "tail" = true
  /\ (forall m'', run <> Undefined m'')
  /\ run <> TooDeep
  /\ forall m', machine_of run = Some m' ->
       exists ext, trace m' = (trace start ++ ext)%list
                   /\ existsb nests ext = false.
Proof.
  intros ls run. split; [reflexivity|]. split; [reflexivity|].
  exact (plain_script_safe env 0 cout false "> " ls "tail" start
           eq_refl eq_refl).
Defined.

End MoreWitnesses.

(** * The pending children, the ignored lines and the output of [main] *)

Module ProgramMore.

Import Grammar TokenizerFacts TokenizerMore SessionFacts SessionMore
  OutputFacts.

Lemma processCmds_nested_settled (E : Env) (d : nat) :
  forall is_ os mode prompt t r m',
    processCmds E d is_ os mode prompt {| trace := []; clock := t |}
    = Ok r m' ->
    settled (trace m') = true.
Proof.
  intros is_ os mode prompt t r m' H.
  destruct (processCmds_settled E d _ _ _ _ _ _ _ H) as [ext [T S]].
  cbn in T. now rewrite T.
Qed.

Lemma alternates_app (a b : list event) :
  forall pending, alternates pending a = true ->
    alternates pending (a ++ b) = alternates None b.
Proof.
  induction a as [|e a IH]; intros pending H.
  - destruct pending; [discriminate | reflexivity].
  - destruct e as [o t|c p|p n|path ok|mode body]; cbn [app alternates] in *;
      try (now apply IH).
    + destruct pending; [discriminate | now apply IH].
    + destruct pending as [child|]; [|discriminate].
      apply andb_true_iff in H as [Hp Ha]. rewrite Hp. now apply IH.
Qed.

(** Events that launch nothing and wait for nothing keep the pairs. *)
Lemma alternates_quiet (ext : list event) :
  forked ext = [] -> waited ext = [] -> alternates None ext = true.
Proof.
  induction ext as [|e ext IH]; intros F W; [reflexivity|].
  destruct e as [o t|c p|p n|path ok|mode body]; cbn in F, W |- *;
    try discriminate; now apply IH.
Qed.

Lemma alternates_chain (m m1 m' : machine) (e1 : list event) :
  trace m1 = (trace m ++ e1)%list -> alternates None e1 = true ->
  (exists ext, trace m' = (trace m1 ++ ext)%list
               /\ alternates None ext = true) ->
  exists ext, trace m' = (trace m ++ ext)%list
              /\ alternates None ext = true.
Proof.
  intros T1 A1 [e2 [T2 A2]]. exists (e1 ++ e2)%list. split.
  - now rewrite T2, T1, app_assoc.
  - now rewrite (alternates_app e1 e2 None A1).
Qed.

(** In a serial session the loop waits for each child right after it has
    launched it. *)
Lemma while_loop_alternates (E : Env) d os prompt (fuel : nat) :
  forall is_ parPids m r parPids' m',
    while_loop E (processCmds E d) fuel os false prompt is_ parPids m
    = Ok (r, parPids') m' ->
    exists ext, trace m' = (trace m ++ ext)%list
                /\ alternates None ext = true.
Proof.
  induction fuel as [|fuel IH]; intros is_ parPids m r parPids' m' H;
    [discriminate|].
  cbn [while_loop] in H. rewrite RunFacts.bind_emit in H.
  set (m0 := {| trace := trace m ++ [Write os prompt]; clock := clock m |})
    in H.
  apply (alternates_chain m m0 m' [Write os prompt] eq_refl eq_refl).
  destruct (getline is_) as [[line|] is'].
  - cbv zeta in H. destruct (checkIgnore (split line));
      [exact (IH _ _ _ _ _ _ H)|].
    unfold bind at 1 in H.
    destruct (processFirstWord E (processCmds E d) (split line) m0)
      as [go m1|m1|] eqn:Hp; try discriminate.
    destruct (processFirstWord_quiet E (processCmds E d)
                (processCmds_nested_settled E d) _ _ _ _ Hp)
      as [e1 [T1 [F1 [W1 _]]]].
    apply (alternates_chain m0 m1 m' e1 T1 (alternates_quiet e1 F1 W1)).
    destruct (negb go || eof is').
    + injection H as _ _ <-. exists []. now rewrite app_nil_r.
    + cbn [negb] in H. unfold bind at 1 in H.
      rewrite runSerialCommand_run in H. cbv zeta in H.
      set (c := split line) in *.
      set (pid := forkNexec E (clock m1) c) in *.
      set (code := cp_wait E (S (clock m1)) pid) in *.
      match type of H with _ ?m2 = _ =>
        apply (alternates_chain m1 m2 m'
                 [Write os (running c); Fork c pid; Wait pid code;
                  Write os (exit_code code)] eq_refl)
      end; [|exact (IH _ _ _ _ _ _ H)].
      cbn. now rewrite Z.eqb_refl.
  - injection H as _ _ <-. exists []. now rewrite app_nil_r.
Qed.

(** X13. What the loop keeps true of [parPids] and of the children.  In
    a parallel session the loop waits for no child, and [parPids] grows
    by exactly the children the session launches, in launch order.  In a
    serial session the launches and waits of the loop come in pairs, each
    launch followed, before any other launch, by the wait for the child
    just launched, and [parPids] is left as it was. *)
Theorem pending_children_invariant (E : Env) d os parMode prompt is_
    parPids m r parPids' m' :
  loop E (processCmds E d) os parMode prompt is_ parPids m
  = Ok (r, parPids') m' ->
  exists ext,
    trace m' = (trace m ++ ext)%list
    /\ if parMode
       then waited ext = [] /\ parPids' = (parPids ++ forked ext)%list
       else alternates None ext = true
            /\ forked ext = waited ext /\ parPids' = parPids.
Proof.
  unfold loop. intros H.
  destruct (while_loop_accounts E (processCmds E d)
              (processCmds_nested_settled E d) _ _ _ _ _ _ _ _ _ _ H)
    as [ext [T [_ A]]].
  exists ext. split; [exact T|]. destruct parMode; [exact A|].
  split; [|exact A].
  destruct (while_loop_alternates E d _ _ _ _ _ _ _ _ _ H)
    as [ext' [T' A']].
  rewrite T in T'. apply app_inv_head in T'. now subst ext'.
Qed.

Lemma first_word_hash (s w r : string) :
  quoted (String hash s) = Some (w, r) -> Str.front w = hash.
Proof.
  unfold quoted. cbn [skipws]. change (isspace hash) with false. cbv iota.
  change (Ascii.eqb hash delim) with false. cbv iota.
  cbn [get_word]. change (isspace hash) with false. cbv iota.
  destruct (get_word s) as [w' r']. intros H. now injection H as <- _.
Qed.

(** X14. A line of whitespace only, and a line whose first character
    after any whitespace is a hash, are skipped, whatever follows the
    hash; so is a line whose first word is quoted and starts with a
    hash. *)
Theorem comment_and_blank_lines_ignored (lead rest tail : string) :
  blank lead = true ->
  checkIgnore (split lead) = true
  /\ checkIgnore (split (lead ++ String hash rest)) = true
  /\ checkIgnore (split (lead ++ render (Quoted (String hash rest)) ++ tail))
     = true.
Proof.
  intros Hl. repeat split.
  - now rewrite split_blank.
  - rewrite split_lead, split_unfold by assumption.
    destruct (quoted (String hash rest)) as [[w r]|] eqn:Hq; [|reflexivity].
    cbn [checkIgnore]. rewrite (first_word_hash _ _ _ Hq).
    apply Ascii.eqb_refl.
  - now rewrite split_after_quoted.
Qed.

(** X15. All the program writes, it writes to [std::cout]: every write of
    a run of [main], in the session over standard input and in every
    session nested in it, goes there. *)
Theorem main_writes_to_cout (E : Env) d (stdin : string) m' :
  machine_of (main E d stdin) = Some m' ->
  Forall (fun e => writes_only cout e = true) (trace m').
Proof.
  unfold main. intros H.
  pose proof (processCmds_to_cout E d (istringstream stdin) false "> " start)
    as Hc.
  rewrite H in Hc. destruct Hc as [ext [T F]].
  cbn in T. rewrite T. exact F.
Qed.

End ProgramMore.

Module ProgramWitnesses.

Import Grammar ProgramMore Demo.

(** A parallel loop that starts with child 7 pending, and a serial loop
    over the same lines. *)
Lemma pending_children_invariant_witness :
  let input := ln "sleep 2" ++ ln "# wait" ++ ln "sleep 1" ++ ln "exit" in
  let m_par :=
    {| trace :=
         [Write cout "> "; Write cout (running ["sleep"; "2"]);
          Fork ["sleep"; "2"] 100;
          Write cout "> ";
          Write cout "> "; Write cout (running ["sleep"; "1"]);
          Fork ["sleep"; "1"] 101;
          Write cout "> "];
       clock := 2 |} in
  let m_ser :=
    {| trace :=
         [Write cout "> "; Write cout (running ["sleep"; "2"]);
          Fork ["sleep"; "2"] 100; Wait 100 0; Write cout (exit_code 0);
          Write cout "> ";
          Write cout "> "; Write cout (running ["sleep"; "1"]);
          Fork ["sleep"; "1"] 102; Wait 102 0; Write cout (exit_code 0);
          Write cout "> "];
       clock := 4 |} in
  (loop env (processCmds env 0) cout true "> " (istringstream input) [7%Z]
     start
   = Ok (istringstream EmptyString, [7; 100; 101]%Z) m_par
   /\ exists ext,
        trace m_par = (trace start ++ ext)%list
        /\ waited ext = []
           /\ [7; 100; 101]%Z = ([7%Z] ++ forked ext)%list)
  /\ (loop env (processCmds env 0) cout false "> " (istringstream input)
        [7%Z] start
      = Ok (istringstream EmptyString, [7%Z]) m_ser
      /\ exists ext,
           trace m_ser = (trace start ++ ext)%list
           /\ alternates None ext = true
              /\ forked ext = waited ext /\ [7%Z] = [7%Z]).
Proof.
  intros input m_par m_ser. split; (split; [reflexivity|]).
  - exact (pending_children_invariant env 0 cout true "> "
             (istringstream input) [7%Z] start (istringstream EmptyString)
             [7; 100; 101]%Z m_par eq_refl).
  - exact (pending_children_invariant env 0 cout false "> "
             (istringstream input) [7%Z] start (istringstream EmptyString)
             [7%Z] m_ser eq_refl).
Defined.

Lemma comment_and_blank_lines_ignored_witness :
  blank "  " = true
  /\ checkIgnore (split "  ") = true
  /\ checkIgnore (split ("  " ++ String hash " not run")) = true
  /\ checkIgnore
       (split ("  " ++ render (Quoted (String hash " not run"))
               ++ "at all"))
     = true.
Proof.
  split; [reflexivity|].
  exact (comment_and_blank_lines_ignored "  " " not run" "at all" eq_refl).
Defined.

Lemma main_writes_to_cout_witness :
  let m' :=
    {| trace :=
         [Write cout "> "; Open "batch.txt" true;
          Nested false
            [Write cout EmptyString; Write cout (running ["sleep"; "2"]);
             Fork ["sleep"; "2"] 100; Wait 100 0; Write cout (exit_code 0);
             Write cout EmptyString; Write cout (running ["sleep"; "1"]);
             Fork ["sleep"; "1"] 102; Wait 102 0; Write cout (exit_code 0);
             Write cout EmptyString]];
       clock := 4 |} in
  machine_of (main env 2 (ln "SERIAL batch.txt")) = Some m'
  /\ Forall (fun e => writes_only cout e = true) (trace m').
Proof.
  intros m'. split; [reflexivity|].
  exact (main_writes_to_cout env 2 (ln "SERIAL batch.txt") m' eq_refl).
Defined.

End ProgramWitnesses.
